(** * The component handler of the sample: registration, upgrade and downgrade

    A shallow embedding of [componentHandler] (the revealing-module object
    defined at the top of the sample) and the properties of its registry.

    The handler keeps two arrays in its closure, [registeredComponents_] and
    [createdComponents_], and marks upgraded elements with the attribute
    [data-upgraded].  Its functions are embedded as commands over an explicit
    state; exceptions are completions that keep the state reached so far.

    The code the handler calls but does not contain is kept abstract:
    a component constructor either returns the new component, whose
    [element_] is the element it was given, or throws, and what it makes of
    the subtree of its element is part of the description of the element;
    callbacks and event listeners are recorded in a trace and return.  The
    only thing a listener decides is whether [mdl-componentupgrading] is
    cancelled.

    One constructor of the sample calls back into the handler:
    [MaterialDataTable] upgrades the labels it creates for a selectable
    table.  These nested upgrades are on elements the constructor has just
    created, never on the element itself, and they are not embedded; nor is
    a callback that throws, which ends the upgrade with its error.  The
    properties of one upgrade are therefore stated for the element that is
    upgraded (its attribute, its components, the events on it) and, where
    they describe a result, for an upgrade that returns.

    Two more parts of the sample follow the handler: the snackbar
    component with its queue of notifications and its timers, and the
    string functions that are defined between the components. *)

From Stdlib Require Import ZArith Ascii String.
From stdpp Require Import base option list strings gmap.

Local Open Scope string_scope.
Local Open Scope list_scope.

(** ** JavaScript array and string primitives *)

Module Js.

(** [Array.prototype.indexOf]: the position of the first entry that is
    strictly equal to the searched value, [-1] when there is none.  The
    searched value is given by its strict-equality test. *)
Fixpoint indexOf_from {A} (same : A → bool) (l : list A) (i : Z) : Z :=
  match l with
  | [] => (-1)%Z
  | y :: l' => if same y then i else indexOf_from same l' (i + 1)%Z
  end.

Definition indexOf {A} (same : A → bool) (l : list A) : Z :=
  indexOf_from same l 0%Z.

(** [Array.prototype.splice(start, 1)]: a negative [start] counts from the
    end of the array, and is clamped to the array. *)
Definition splice1 {A} (start : Z) (l : list A) : list A :=
  let len := Z.of_nat (length l) in
  let actual := if (start <? 0)%Z then Z.max (len + start) 0
                else Z.min start len in
  delete (Z.to_nat actual) l.

(** [String.prototype.split(',')]: never returns an empty array. *)
Fixpoint split (s : string) : list string :=
  match s with
  | EmptyString => [EmptyString]
  | String c rest =>
      if Ascii.eqb c ","%char then EmptyString :: split rest
      else match split rest with
           | [] => [String c EmptyString]
           | h :: t => String c h :: t
           end
  end.

(** [Array.prototype.join(',')] on an array of strings. *)
Fixpoint join (l : list string) : string :=
  match l with
  | [] => EmptyString
  | x :: rest =>
      match rest with
      | [] => x
      | _ :: _ => x ++ String ","%char (join rest)
      end
  end.


(** The values the handler compares and tests. *)
Inductive Value :=
  | Undefined
  | Str (s : string)
  | Bool (b : bool)
  | Object.   (* a function, an array or another object *)

(** [s === v] for a string [s]. *)
Definition strictEquals (v : Value) (s : string) : bool :=
  match v with
  | Str t => bool_decide (s = t)
  | _ => false
  end.

(** [!v] for a value that is a string or [undefined]. *)
Definition falsy (v : option string) : bool :=
  match v with
  | None => true
  | Some s => bool_decide (s = EmptyString)
  end.

(** String conversion in ['.' + v]. *)
Definition toString (v : option string) : string :=
  match v with
  | None => "undefined"
  | Some s => s
  end.

End Js.

(** ** The DOM, as far as the handler looks at it *)

Inductive NodeKind :=
  | HtmlElementNode   (* instanceof HTMLElement (so also Element and Node) *)
  | OtherElementNode  (* instanceof Element, not HTMLElement (an SVG element) *)
  | NonElementNode.   (* a Node that is no Element (text, comment, document) *)

(** A node as it is when a function of the handler is called with it: its
    identity, its kind, the tokens of its [classList], whether a listener
    reached by the bubbling [mdl-componentupgrading] event calls
    [preventDefault], and [element.children].

    The constructors of the components change the subtree of the element
    they are given ([MaterialCheckbox] appends the spans of its tick and of
    its ripple, [MaterialDataTable] inserts cells into the rows).  What they
    do is part of the description of the node: [constructed] holds, for the
    name of a constructor, the element as it is once that constructor has
    run on it; a constructor without entry leaves the element as it is. *)
#[local] Unset Elimination Schemes.
Inductive Node :=
  DomNode (nodeId : nat) (nodeKind : NodeKind) (classTokens : list string)
          (upgradePrevented : bool) (childElements : list Node)
          (constructed : list (string * Node)).
#[local] Set Elimination Schemes.

Definition nodeId (n : Node) : nat :=
  match n with DomNode i _ _ _ _ _ => i end.
Definition nodeKind (n : Node) : NodeKind :=
  match n with DomNode _ k _ _ _ _ => k end.
Definition classList (n : Node) : list string :=
  match n with DomNode _ _ c _ _ _ => c end.
Definition upgradingPrevented (n : Node) : bool :=
  match n with DomNode _ _ _ p _ _ => p end.
Definition children (n : Node) : list Node :=
  match n with DomNode _ _ _ _ ch _ => ch end.
Definition constructed (n : Node) : list (string * Node) :=
  match n with DomNode _ _ _ _ _ after => after end.

(** The element once the constructor of that name has run on it, and once
    several have, one after the other. *)
Fixpoint lookupConstructed (name : string) (l : list (string * Node))
    : option Node :=
  match l with
  | [] => None
  | (name', after) :: rest =>
      if bool_decide (name' = name) then Some after
      else lookupConstructed name rest
  end.

Definition afterConstructor (name : string) (element : Node) : Node :=
  default element (lookupConstructed name (constructed element)).

Definition afterConstructors (names : list string) (element : Node) : Node :=
  fold_left (fun element name => afterConstructor name element) names element.

(** The height of a node, over its children and over what the constructors
    make of it. *)
Fixpoint height (n : Node) : nat :=
  match n with
  | DomNode _ _ _ _ childElements constructed =>
      S (Nat.max
           (foldr Nat.max 0 (height <$> childElements))
           (foldr Nat.max 0 ((fun '(_, after) => height after)
                               <$> constructed)))
  end.

Definition instanceofElement (n : Node) : bool :=
  match nodeKind n with
  | HtmlElementNode | OtherElementNode => true
  | NonElementNode => false
  end.

Definition instanceofHTMLElement (n : Node) : bool :=
  match nodeKind n with
  | HtmlElementNode => true
  | _ => false
  end.

(** [classList.contains(token)] *)
Definition classList_contains (n : Node) (token : string) : bool :=
  bool_decide (token ∈ classList n).

(** ** Component constructors, descriptors and instances *)

(** A component constructor, as far as the handler depends on it: whether
    its prototype has the own property [mdlComponentConfigInternal_], and on
    which elements [new constructor(element)] throws (the snackbar
    constructor of the sample throws when the element lacks its message or
    action child).  Every constructor of the sample begins with
    [this.element_ = element]. *)
Record Constructor := {
  constructorName : string;
  prototypeHasConfigProperty : bool;
  constructorThrows : Node → bool
}.

(** The value of a [widget] property: [string|boolean]. *)
Inductive WidgetFlag :=
  | WidgetBool (b : bool)
  | WidgetString (s : string).

Definition truthy (w : WidgetFlag) : bool :=
  match w with
  | WidgetBool b => b
  | WidgetString s => negb (bool_decide (s = EmptyString))
  end.

(** [componentHandler.ComponentConfigPublic], the argument of [register]. *)
Module Public.
Record ComponentConfigPublic := {
  constructor : Constructor;
  classAsString : string;
  cssClass : string;
  widget : option WidgetFlag   (* [None]: undefined *)
}.
End Public.

(** [componentHandler.ComponentConfig].  No property of such an object is
    ever assigned after [registerInternal] built it; what changes is the
    array its [callbacks] property refers to, so [callbacks] is the location
    of that array in the store.  Each descriptor is built with an array
    literal of its own, hence two descriptors are the same object exactly
    when they hold the same array. *)
Record ComponentConfig := {
  classConstructor : Constructor;
  className : string;
  cssClass : string;
  widget : WidgetFlag;
  callbacks : nat
}.

Definition sameConfig (a b : ComponentConfig) : bool :=
  bool_decide (callbacks a = callbacks b).

(** Reading a property of a descriptor.  [registerInternal] builds the
    descriptor as an object literal with these five properties, and no
    property is added later; any other name that [Object.prototype] does
    not define, such as [classAsString], reads as [undefined]. *)
Definition getProperty (c : ComponentConfig) (name : string) : Js.Value :=
  if bool_decide (name = "classConstructor") then Js.Object
  else if bool_decide (name = "className") then Js.Str (className c)
  else if bool_decide (name = "cssClass") then Js.Str (cssClass c)
  else if bool_decide (name = "widget") then
    match widget c with
    | WidgetBool b => Js.Bool b
    | WidgetString s => Js.Str s
    end
  else if bool_decide (name = "callbacks") then Js.Object
  else Js.Undefined.

(** A created component: the object made by [new classConstructor(element)],
    with its [element_] and the reserved property the handler adds. *)
Record Component := {
  componentId : nat;
  element_ : nat;
  mdlComponentConfigInternal_ : ComponentConfig
}.

Definition sameComponent (a b : Component) : bool :=
  bool_decide (componentId a = componentId b).

(** ** State, events and completions *)

Inductive Event :=
  | Dispatched (type : string) (target : nat)
  | Constructed (ctor : string) (target : nat)
  | CalledBack (callback : nat) (target : nat).

Inductive JsError :=
  | InvalidUpgradeArgument     (* 'Invalid argument provided to upgrade MDL element.' *)
  | NoRegisteredComponent      (* 'Unable to find a registered component for the given class.' *)
  | ReservedPropertyDefined    (* 'MDL component classes must not have ... defined as a property.' *)
  | InvalidDowngradeArgument   (* 'Invalid argument provided to downgrade MDL nodes.' *)
  | ConstructorError (ctor : string)  (* thrown by a component constructor *)
  | TypeError                  (* a property read on null *)
  | SyntaxError.               (* an invalid selector *)

Inductive Completion :=
  | Normal
  | Thrown (e : JsError).

Record State := {
  registeredComponents_ : list ComponentConfig;
  createdComponents_ : list Component;
  callbackArrays : list (list nat);          (* the [callbacks] arrays *)
  dataUpgraded : gmap nat string;            (* attribute data-upgraded, by node *)
  widgetProperty : gmap (nat * string) nat;  (* element[className] = instance *)
  nextComponentId : nat;
  trace : list Event
}.

Definition Cmd := State → Completion * State.

Definition ret : Cmd := fun s => (Normal, s).

Definition throw (e : JsError) : Cmd := fun s => (Thrown e, s).

Definition andThen (c1 c2 : Cmd) : Cmd :=
  fun s => match c1 s with
           | (Normal, s') => c2 s'
           | (Thrown e, s') => (Thrown e, s')
           end.

Declare Scope cmd_scope.
Delimit Scope cmd_scope with cmd.
Bind Scope cmd_scope with Cmd.
Notation "c1 ;; c2" := (andThen c1 c2)
  (at level 100, c2 at level 200, right associativity) : cmd_scope.
Local Open Scope cmd_scope.

Fixpoint forEach {A} (f : A → Cmd) (l : list A) : Cmd :=
  match l with
  | [] => ret
  | x :: rest => f x ;; forEach f rest
  end.

Definition initialState (attributes : gmap nat string) : State :=
  {| registeredComponents_ := [];
     createdComponents_ := [];
     callbackArrays := [];
     dataUpgraded := attributes;
     widgetProperty := ∅;
     nextComponentId := 0;
     trace := [] |}.

(** *** State updates *)

Definition setRegistered (l : list ComponentConfig) (s : State) : State :=
  {| registeredComponents_ := l;
     createdComponents_ := createdComponents_ s;
     callbackArrays := callbackArrays s;
     dataUpgraded := dataUpgraded s;
     widgetProperty := widgetProperty s;
     nextComponentId := nextComponentId s;
     trace := trace s |}.

Definition setCreated (l : list Component) (s : State) : State :=
  {| registeredComponents_ := registeredComponents_ s;
     createdComponents_ := l;
     callbackArrays := callbackArrays s;
     dataUpgraded := dataUpgraded s;
     widgetProperty := widgetProperty s;
     nextComponentId := nextComponentId s;
     trace := trace s |}.

Definition setCallbackArrays (h : list (list nat)) (s : State) : State :=
  {| registeredComponents_ := registeredComponents_ s;
     createdComponents_ := createdComponents_ s;
     callbackArrays := h;
     dataUpgraded := dataUpgraded s;
     widgetProperty := widgetProperty s;
     nextComponentId := nextComponentId s;
     trace := trace s |}.

(** [element.setAttribute('data-upgraded', value)] *)
Definition setAttribute (element : nat) (value : string) (s : State) : State :=
  {| registeredComponents_ := registeredComponents_ s;
     createdComponents_ := createdComponents_ s;
     callbackArrays := callbackArrays s;
     dataUpgraded := <[element := value]> (dataUpgraded s);
     widgetProperty := widgetProperty s;
     nextComponentId := nextComponentId s;
     trace := trace s |}.

(** [element[name] = instance] *)
Definition setWidgetProperty (element : nat) (name : string) (instance : nat)
    (s : State) : State :=
  {| registeredComponents_ := registeredComponents_ s;
     createdComponents_ := createdComponents_ s;
     callbackArrays := callbackArrays s;
     dataUpgraded := dataUpgraded s;
     widgetProperty := <[(element, name) := instance]> (widgetProperty s);
     nextComponentId := nextComponentId s;
     trace := trace s |}.

Definition setNextComponentId (n : nat) (s : State) : State :=
  {| registeredComponents_ := registeredComponents_ s;
     createdComponents_ := createdComponents_ s;
     callbackArrays := callbackArrays s;
     dataUpgraded := dataUpgraded s;
     widgetProperty := widgetProperty s;
     nextComponentId := n;
     trace := trace s |}.

Definition record (e : Event) (s : State) : State :=
  {| registeredComponents_ := registeredComponents_ s;
     createdComponents_ := createdComponents_ s;
     callbackArrays := callbackArrays s;
     dataUpgraded := dataUpgraded s;
     widgetProperty := widgetProperty s;
     nextComponentId := nextComponentId s;
     trace := trace s ++ [e] |}.

(** [element.dispatchEvent(createEvent_(type, ...))] *)
Definition dispatchEvent (type : string) (target : nat) (s : State) : State :=
  record (Dispatched type target) s.

(** ** The handler *)

(** The loop of [findRegisteredClass_]: the index of the first descriptor
    whose [className] is [name]. *)
Fixpoint findIndex (name : string) (l : list ComponentConfig) : option nat :=
  match l with
  | [] => None
  | c :: rest =>
      if bool_decide (className c = name) then Some 0
      else S <$> findIndex name rest
  end.

(** [findRegisteredClass_(name)]: the descriptor, or [false] ([None]). *)
Definition findRegisteredClass_ (name : string) (s : State)
    : option ComponentConfig :=
  match findIndex name (registeredComponents_ s) with
  | Some i => registeredComponents_ s !! i
  | None => None
  end.

(** [findRegisteredClass_(name, optReplace)] with a replacement: the match is
    overwritten in place and the replacement returned. *)
Definition findRegisteredClass_replace (name : string)
    (optReplace : ComponentConfig) (s : State)
    : option ComponentConfig * State :=
  match findIndex name (registeredComponents_ s) with
  | Some i =>
      (Some optReplace,
       setRegistered (<[i := optReplace]> (registeredComponents_ s)) s)
  | None => (None, s)
  end.

(** [getUpgradedListOfElement_(element)] *)
Definition getUpgradedListOfElement_ (s : State) (element : nat) : list string :=
  match dataUpgraded s !! element with
  | None => [EmptyString]
  | Some dataUpgraded => Js.split dataUpgraded
  end.

(** [isElementUpgraded_(element, jsClass)] *)
Definition isElementUpgraded_ (s : State) (element : nat) (jsClass : string)
    : bool :=
  negb (Js.indexOf (Js.strictEquals (Js.Str jsClass))
          (getUpgradedListOfElement_ s element) =? -1)%Z.

(** The [forEach] of [upgradeElementInternal] that collects the descriptors
    matching the element's classes. *)
Definition scanRegistered (s : State) (element : Node)
    : list ComponentConfig :=
  fold_left
    (fun classesToUpgrade component =>
       if classList_contains element (cssClass component)
          && (Js.indexOf (sameConfig component) classesToUpgrade =? -1)%Z
          && negb (isElementUpgraded_ s (nodeId element) (className component))
       then classesToUpgrade ++ [component]
       else classesToUpgrade)
    (registeredComponents_ s) [].

(** The loop over [registeredClass.callbacks].  The callbacks are called in
    the order of the array; each returns. *)
Definition callCallbacks (registeredClass : ComponentConfig) (element : nat)
    (s : State) : State :=
  fold_left (fun s callback => record (CalledBack callback element) s)
    (default [] (callbackArrays s !! callbacks registeredClass)) s.

(** One turn of the upgrade loop for a descriptor that was found; the
    caller has pushed the class name on [upgradedList]. *)
Definition upgradeFor (registeredClass : ComponentConfig) (element : Node)
    (upgradedList : list string) : Cmd :=
  fun s =>
    let s := setAttribute (nodeId element) (Js.join upgradedList) s in
    let ctor := classConstructor registeredClass in
    let s := record (Constructed (constructorName ctor) (nodeId element)) s in
    if constructorThrows ctor element
    then (Thrown (ConstructorError (constructorName ctor)), s)
    else
      let instance :=
        {| componentId := nextComponentId s;
           element_ := nodeId element;
           mdlComponentConfigInternal_ := registeredClass |} in
      let s := setNextComponentId (S (nextComponentId s)) s in
      let s := setCreated (createdComponents_ s ++ [instance]) s in
      let s := callCallbacks registeredClass (nodeId element) s in
      let s := if truthy (widget registeredClass)
               then setWidgetProperty (nodeId element)
                      (className registeredClass) (componentId instance) s
               else s in
      (Normal, dispatchEvent "mdl-componentupgraded" (nodeId element) s).

(** The loop "Upgrade the element for each classes"; [upgradedList] is the
    local array, which is pushed to and never read again from the
    attribute. *)
Fixpoint upgradeLoop (element : Node)
    (classesToUpgrade : list (option ComponentConfig))
    (upgradedList : list string) : Cmd :=
  match classesToUpgrade with
  | [] => ret
  | None :: _ => throw NoRegisteredComponent
  | Some registeredClass :: rest =>
      let upgradedList := upgradedList ++ [className registeredClass] in
      upgradeFor registeredClass element upgradedList ;;
      upgradeLoop element rest upgradedList
  end.

(** [upgradeElementInternal(element, optJsClass)] *)
Definition upgradeElementInternal (element : Node) (optJsClass : option string)
    : Cmd :=
  fun s =>
    if negb (instanceofElement element)
    then (Thrown InvalidUpgradeArgument, s)
    else
      let s := dispatchEvent "mdl-componentupgrading" (nodeId element) s in
      if upgradingPrevented element then (Normal, s)
      else
        let upgradedList := getUpgradedListOfElement_ s (nodeId element) in
        let classesToUpgrade :=
          match optJsClass with
          | Some jsClass =>
              if Js.falsy optJsClass
              then Some <$> scanRegistered s element
              else if negb (isElementUpgraded_ s (nodeId element) jsClass)
                   then [findRegisteredClass_ jsClass s]
                   else []
          | None => Some <$> scanRegistered s element
          end in
        upgradeLoop element classesToUpgrade upgradedList s.

(** The argument of [upgradeElements]: an element, an array, or a
    [NodeList] or [HTMLCollection]. *)
Inductive ElementsArg :=
  | ElementsSingle (element : Node)
  | ElementsArray (elements : list Node)
  | ElementsCollection (elements : list Node).

(** The normalisation at the head of [upgradeElementsInternal];
    [Array.prototype.slice.call] of a node that is no element has no
    entries. *)
Definition toArray (elements : ElementsArg) : list Node :=
  match elements with
  | ElementsArray l => l
  | ElementsSingle e => if instanceofElement e then [e] else []
  | ElementsCollection l => l
  end.

(** The names of the constructors that [upgradeElementInternal(element)]
    runs on the element, in order, when it returns. *)
Definition constructorsRun (s : State) (element : Node) : list string :=
  if upgradingPrevented element then []
  else (fun c => constructorName (classConstructor c))
         <$> scanRegistered s element.

(** The body of the loop of [upgradeElementsInternal] for one entry, with
    the recursive call on [element.children] (whose loop does nothing when
    the collection is empty).  [element.children] is read after
    [upgradeElementInternal(element)] has returned, so these are the
    children the constructors have left.  The recursion descends into the
    node; [depth] bounds it, and the height of the node is enough. *)
Fixpoint upgradeEntry_within (depth : nat) (element : Node) : Cmd :=
  match depth with
  | 0 => ret
  | S depth =>
      if instanceofHTMLElement element
      then fun s =>
             match upgradeElementInternal element None s with
             | (Normal, s') =>
                 forEach (upgradeEntry_within depth)
                   (children
                      (afterConstructors (constructorsRun s element) element))
                   s'
             | (Thrown e, s') => (Thrown e, s')
             end
      else ret
  end.

Definition upgradeEntry (element : Node) : Cmd :=
  upgradeEntry_within (height element) element.

(** [upgradeElementsInternal(elements)] *)
Definition upgradeElementsInternal (elements : ElementsArg) : Cmd :=
  forEach upgradeEntry (toArray elements).

(** The descriptor that [registerInternal] builds; its [callbacks] array
    is the next one of the store. *)
Definition newConfig (config : Public.ComponentConfigPublic) (s : State)
    : ComponentConfig :=
  {| classConstructor := Public.constructor config;
     className := Public.classAsString config;
     cssClass := Public.cssClass config;
     widget := match Public.widget config with
               | None => WidgetBool true
               | Some w => w
               end;
     callbacks := length (callbackArrays s) |}.

(** [registerInternal(config)] *)
Definition registerInternal (config : Public.ComponentConfigPublic) : Cmd :=
  fun s =>
    let newConfig := newConfig config s in
    let s := setCallbackArrays (callbackArrays s ++ [[]]) s in
    if prototypeHasConfigProperty (Public.constructor config)
    then (Thrown ReservedPropertyDefined, s)
    else
      match findRegisteredClass_replace (Public.classAsString config)
              newConfig s with
      | (Some _, s) => (Normal, s)
      | (None, s) =>
          (Normal, setRegistered (registeredComponents_ s ++ [newConfig]) s)
      end.

(** [registerUpgradedCallbackInternal(jsClass, callback)] *)
Definition registerUpgradedCallbackInternal (jsClass : string) (callback : nat)
    : Cmd :=
  fun s =>
    match findRegisteredClass_ jsClass s with
    | Some regClass =>
        (Normal,
         setCallbackArrays
           (alter (fun cbs => cbs ++ [callback]) (callbacks regClass)
              (callbackArrays s)) s)
    | None => (Normal, s)
    end.

(** [deconstructComponentInternal(component)] *)
Definition deconstructComponentInternal (component : Component) : Cmd :=
  fun s =>
    let componentIndex :=
      Js.indexOf (sameComponent component) (createdComponents_ s) in
    let s := setCreated (Js.splice1 componentIndex (createdComponents_ s)) s in
    match dataUpgraded s !! element_ component with
    | None => (Thrown TypeError, s)
    | Some dataUpgraded =>
        let upgrades := Js.split dataUpgraded in
        let componentPlace :=
          Js.indexOf
            (Js.strictEquals
               (getProperty (mdlComponentConfigInternal_ component)
                  "classAsString"))
            upgrades in
        let upgrades := Js.splice1 componentPlace upgrades in
        let s := setAttribute (element_ component) (Js.join upgrades) s in
        (Normal,
         dispatchEvent "mdl-componentdowngraded" (element_ component) s)
    end.

(** The argument of [downgradeElements]. *)
Inductive NodesArg :=
  | NodesArray (nodes : list Node)
  | NodesNodeList (nodes : list Node)
  | NodesSingle (node : Node)
  | NodesOther.   (* neither an Array, nor a NodeList, nor a Node *)

(** The auxiliary [downgradeNode] of [downgradeNodesInternal]. *)
Definition downgradeNode (node : Node) : Cmd :=
  fun s =>
    forEach deconstructComponentInternal
      (filter (fun item => element_ item = nodeId node) (createdComponents_ s))
      s.

(** [downgradeNodesInternal(nodes)] *)
Definition downgradeNodesInternal (nodes : NodesArg) : Cmd :=
  match nodes with
  | NodesArray l | NodesNodeList l => forEach downgradeNode l
  | NodesSingle node => downgradeNode node
  | NodesOther => throw InvalidDowngradeArgument
  end.

(** ** The document *)

Section Document.

(** The top-level elements of the document, in document order. *)
Variable document : list Node.

(** The nodes of a forest in document order. *)
Fixpoint descendantsOrSelf (n : Node) : list Node :=
  match n with
  | DomNode _ _ _ _ childElements _ =>
      n :: concat (descendantsOrSelf <$> childElements)
  end.

(** [document.querySelectorAll(selector)] for the selectors the handler
    builds, ['.' + cssClass]: the elements that carry the class, in
    document order.  The marker classes of the sample are CSS identifiers,
    and for such a class the selector is the class selector; a class with
    a dot, a blank or a leading digit would make another selector or none,
    and is outside of this definition.  The lone ['.'] is no selector. *)
Definition querySelectorAll (selector : string) : option (list Node) :=
  match selector with
  | String "."%char EmptyString => None
  | String "."%char cls =>
      Some (filter (fun n => instanceofElement n = true
                             ∧ cls ∈ classList n)
              (concat (descendantsOrSelf <$> document)))
  | _ => None
  end.

(** The branch of [upgradeDomInternal] taken when an argument is given. *)
Definition upgradeDomFor (optJsClass optCssClass : option string) : Cmd :=
  fun s =>
    let optCssClass :=
      match optCssClass with
      | Some c => Some c
      | None =>
          match optJsClass with
          | Some jsClass =>
              match findRegisteredClass_ jsClass s with
              | Some registeredClass => Some (cssClass registeredClass)
              | None => None
              end
          | None => None
          end
      end in
    match querySelectorAll ("." ++ Js.toString optCssClass) with
    | None => (Thrown SyntaxError, s)
    | Some elements =>
        forEach (fun element => upgradeElementInternal element optJsClass)
          elements s
    end.

(** [upgradeDomInternal(optJsClass, optCssClass)]; the calls of the first
    branch pass two strings and so take the second branch. *)
Definition upgradeDomInternal (optJsClass optCssClass : option string)
    : Cmd :=
  fun s =>
    match optJsClass, optCssClass with
    | None, None =>
        forEach (fun component =>
                   upgradeDomFor (Some (className component))
                     (Some (cssClass component)))
          (registeredComponents_ s) s
    | _, _ => upgradeDomFor optJsClass optCssClass s
    end.

(** [upgradeAllRegisteredInternal()] *)
Definition upgradeAllRegisteredInternal : Cmd :=
  fun s =>
    forEach (fun component =>
               upgradeDomInternal (Some (className component)) None)
      (registeredComponents_ s) s.

End Document.

(** ** The public interface and the states it reaches *)

(** A call of one of the seven functions the module returns.  The document
    is what the page holds when the call is made. *)
Inductive Call :=
  | UpgradeDom (document : list Node) (optJsClass optCssClass : option string)
  | UpgradeElement (element : Node) (optJsClass : option string)
  | UpgradeElements (elements : ElementsArg)
  | UpgradeAllRegistered (document : list Node)
  | RegisterUpgradedCallback (jsClass : string) (callback : nat)
  | Register (config : Public.ComponentConfigPublic)
  | DowngradeElements (nodes : NodesArg).

Definition call (c : Call) : Cmd :=
  match c with
  | UpgradeDom document optJsClass optCssClass =>
      upgradeDomInternal document optJsClass optCssClass
  | UpgradeElement element optJsClass =>
      upgradeElementInternal element optJsClass
  | UpgradeElements elements => upgradeElementsInternal elements
  | UpgradeAllRegistered document => upgradeAllRegisteredInternal document
  | RegisterUpgradedCallback jsClass callback =>
      registerUpgradedCallbackInternal jsClass callback
  | Register config => registerInternal config
  | DowngradeElements nodes => downgradeNodesInternal nodes
  end.

(** The state after a sequence of calls; a call that throws leaves the
    state it had reached. *)
Definition run (calls : list Call) (s : State) : State :=
  fold_left (fun s c => (call c s).2) calls s.

(** The states of the handler: both arrays start empty, the attributes of
    the page are arbitrary, and only the public functions act. *)
Inductive reachable : State → Prop :=
  | reachable_initial attributes : reachable (initialState attributes)
  | reachable_call s c : reachable s → reachable (call c s).2.

(** ** Invariants of the registry *)

Definition registeredNames (s : State) : list string :=
  className <$> registeredComponents_ s.

Record Inv (s : State) : Prop := {
  inv_names : NoDup (registeredNames s);
  inv_arrays :
    ∀ c, c ∈ registeredComponents_ s →
         callbacks c < length (callbackArrays s);
  inv_created :
    ∀ c, c ∈ createdComponents_ s →
         is_Some (dataUpgraded s !! element_ c)
         ∧ className (mdlComponentConfigInternal_ c) ∈ registeredNames s
         ∧ callbacks (mdlComponentConfigInternal_ c)
           < length (callbackArrays s);
  inv_objects : NoDup (callbacks <$> registeredComponents_ s)
}.


(** The created components are distinct objects, numbered below the next
    number to be given. *)
Definition freshIds (s : State) : Prop :=
  NoDup (componentId <$> createdComponents_ s)
  ∧ ∀ c, c ∈ createdComponents_ s → componentId c < nextComponentId s.

(** A command keeps a property of the state, however it completes. *)
Definition preserves (P : State → Prop) (c : Cmd) : Prop :=
  ∀ s, P s → P (c s).2.

(** What upgrades and downgrades do to the state: the descriptors and their
    callbacks stay, attributes are written but never removed, and a
    component that was not there before sits on a marked element and was
    made from a registered descriptor. *)
Record Step (s s' : State) : Prop := {
  step_registered : registeredComponents_ s' = registeredComponents_ s;
  step_arrays : callbackArrays s' = callbackArrays s;
  step_attributes :
    ∀ e, is_Some (dataUpgraded s !! e) → is_Some (dataUpgraded s' !! e);
  step_created :
    ∀ c, c ∈ createdComponents_ s' →
         c ∈ createdComponents_ s
         ∨ (is_Some (dataUpgraded s' !! element_ c)
            ∧ mdlComponentConfigInternal_ c ∈ registeredComponents_ s)
}.

(** ** The order of a bulk upgrade, as the specification words it *)

(** An entry that is an HTML element comes first and is followed by the
    orders of the children it has once it is upgraded, in document order;
    any other entry contributes nothing, whatever is below it.  Which
    constructors run on an element is read off the state in which the
    traversal starts. *)
Fixpoint subtreeOrder_within (depth : nat) (s : State) (n : Node)
    : list Node :=
  match depth with
  | 0 => []
  | S depth =>
      if instanceofHTMLElement n
      then n :: concat (subtreeOrder_within depth s
                          <$> children
                                (afterConstructors (constructorsRun s n) n))
      else []
  end.

Definition subtreeOrder (s : State) (n : Node) : list Node :=
  subtreeOrder_within (height n) s n.

Definition upgradeOrder (s : State) (entries : list Node) : list Node :=
  concat (subtreeOrder s <$> entries).


(** ** Scenarios *)

Module Scenario.

(** A constructor that sets [element_] and returns. *)
Definition plainConstructor (name : string) : Constructor :=
  {| constructorName := name;
     prototypeHasConfigProperty := false;
     constructorThrows := fun _ => false |}.

(** A constructor that throws on an element without children, like the
    snackbar constructor when the message element is missing. *)
Definition snackbarConstructor : Constructor :=
  {| constructorName := "MaterialSnackbar";
     prototypeHasConfigProperty := false;
     constructorThrows :=
       fun element => match children element with
                      | [] => true
                      | _ :: _ => false
                      end |}.

(** A constructor whose prototype defines the reserved property. *)
Definition collidingConstructor : Constructor :=
  {| constructorName := "Colliding";
     prototypeHasConfigProperty := true;
     constructorThrows := fun _ => false |}.

Definition config (ctor : Constructor) (name css : string)
    : Public.ComponentConfigPublic :=
  {| Public.constructor := ctor;
     Public.classAsString := name;
     Public.cssClass := css;
     Public.widget := None |}.

Definition widgetConfig : Public.ComponentConfigPublic :=
  config (plainConstructor "Widget") "Widget" "w-js".

Definition otherWidgetConfig : Public.ComponentConfigPublic :=
  config (plainConstructor "Widget2") "Widget" "w2-js".

Definition gadgetConfig : Public.ComponentConfigPublic :=
  config (plainConstructor "Gadget") "Gadget" "g-js".

Definition buttonConfig : Public.ComponentConfigPublic :=
  config (plainConstructor "MaterialButton") "MaterialButton"
    "mdl-js-button".

Definition snackbarConfig : Public.ComponentConfigPublic :=
  config snackbarConstructor "MaterialSnackbar" "mdl-js-snackbar".


Definition collidingConfig : Public.ComponentConfigPublic :=
  config collidingConstructor "Widget" "w-js".

(** [<div class="w-js">] *)
Definition widgetNode : Node :=
  DomNode 1 HtmlElementNode ["w-js"] false [] [].

(** The same element with a listener that cancels the upgrade. *)
Definition guardedNode : Node :=
  DomNode 1 HtmlElementNode ["w-js"] true [] [].

(** [<div class="mdl-js-button mdl-js-snackbar">] without children. *)
Definition buttonNode : Node :=
  DomNode 1 HtmlElementNode ["mdl-js-button"; "mdl-js-snackbar"] false [] [].

(** [<div class="w-js"><svg class="w-js"><div class="w-js"/></svg>
    <p class="g-js"><span class="w-js"/></p></div>] *)
Definition treeNode : Node :=
  DomNode 1 HtmlElementNode ["w-js"] false
    [DomNode 2 OtherElementNode ["w-js"] false
       [DomNode 3 HtmlElementNode ["w-js"] false [] []] [];
     DomNode 4 HtmlElementNode ["g-js"] false
       [DomNode 5 HtmlElementNode ["w-js"] false [] []] []]
    [].




(** An HTML element without children and without listener, which the
    constructors leave as it is. *)
Definition leaf (i : nat) (classes : list string) : Node :=
  DomNode i HtmlElementNode classes false [] [].

(** The registration of scenario A, for any constructor and flag. *)
Definition widgetWith (ctor : Constructor) (flag : option WidgetFlag)
    : Public.ComponentConfigPublic :=
  {| Public.constructor := ctor;
     Public.classAsString := "Widget";
     Public.cssClass := "w-js";
     Public.widget := flag |}.

(** The four bulk upgrades that reach an element of the document. *)
Definition bulkUpgrades (element : Node) : list Call :=
  [UpgradeAllRegistered [element];
   UpgradeDom [element] None None;
   UpgradeElements (ElementsSingle element);
   UpgradeElements (ElementsArray [element])].

(** Two types registered, one callback subscribed. *)
Definition registered : State :=
  run [Register widgetConfig; Register gadgetConfig;
       RegisterUpgradedCallback "Widget" 7]
    (initialState ∅).


End Scenario.

(** ** Notions for the further properties of the handler *)

(** The callbacks subscribed to a descriptor, in subscription order. *)
Definition subscribers (s : State) (c : ComponentConfig) : list nat :=
  default [] (callbackArrays s !! callbacks c).

(** The created components whose element is a given node. *)
Definition liveOn (s : State) (element : nat) : list Component :=
  filter (fun c => element_ c = element) (createdComponents_ s).

(** The descriptors an upgrade without type is about: those whose marker
    class the element carries and for which it is not marked yet, in
    registration order. *)
Definition candidates (s : State) (element : Node) : list ComponentConfig :=
  filter (fun c => cssClass c ∈ classList element
                   ∧ className c ∉ getUpgradedListOfElement_ s (nodeId element))
    (registeredComponents_ s).


(** The names of a list in the order of their first occurrence. *)
Definition firstOccurrences (names : list string) : list string :=
  reverse (remove_dups (reverse names)).

(** The components an upgrade makes from a list of descriptors, numbered
    from [next]. *)
Fixpoint componentsFor (element : nat) (next : nat)
    (classes : list ComponentConfig) : list Component :=
  match classes with
  | [] => []
  | c :: rest =>
      {| componentId := next; element_ := element;
         mdlComponentConfigInternal_ := c |}
      :: componentsFor element (S next) rest
  end.

(** What one upgrade adds to the trace. *)
Definition upgradeEvents (s : State) (element : nat) (c : ComponentConfig)
    : list Event :=
  [Constructed (constructorName (classConstructor c)) element]
  ++ ((fun callback => CalledBack callback element) <$> subscribers s c)
  ++ [Dispatched "mdl-componentupgraded" element].

(** A registration that [register] accepts. *)
Definition accepted (config : Public.ComponentConfigPublic) : Prop :=
  prototypeHasConfigProperty (Public.constructor config) = false.



(** ** The snackbar and its queue of notifications

    [MaterialSnackbar] shows one notification at a time and queues the
    others.  The component is embedded with its fields, the part of the DOM
    it reads and writes, and the callbacks it has passed to [setTimeout];
    a timer that fires is a step of its own.  The fields of a notification
    are read as the documentation types them: the message and the action
    text are strings, the handler is a function, the timeout is a number
    (not [NaN]), and each may be missing. *)

Module Snackbar.

Record Data := {
  message : option string;
  actionHandler : option nat;
  actionText : option string;
  timeout : option Z
}.

(** Truthiness of a string, a number and a function that may be
    [undefined]. *)
Definition truthyString (v : option string) : bool :=
  match v with
  | Some text => negb (String.eqb text "")
  | None => false
  end.

Definition truthyNumber (v : option Z) : bool :=
  match v with
  | Some n => negb (n =? 0)%Z
  | None => false
  end.

Definition truthyFunction (v : option nat) : bool :=
  match v with
  | Some _ => true
  | None => false
  end.

(** The two functions the component passes to [setTimeout]:
    [this.cleanup_.bind(this)] and the function expression in [cleanup_]. *)
Inductive Callback :=
  | CleanupBound
  | CleanupInner.

Record Timer := {
  callback : Callback;
  delay : option Z
}.

Inductive SnackbarError :=
  | NoData
  | NoMessage
  | NoActionText.

Inductive Result :=
  | Done
  | Failed (e : SnackbarError).

Record Component := {
  (** [this.active] *)
  active : bool;
  (** [this.actionHandler_]: [undefined] or a function *)
  actionHandler_ : option nat;
  (** [this.message_] *)
  message_ : option string;
  (** [this.actionText_] *)
  actionText_ : option string;
  (** [this.timeout_], which the constructor does not set *)
  timeout_ : option Z;
  (** [this.queuedNotifications_] *)
  queuedNotifications_ : list Data;
  (** whether the element has the class [mdl-snackbar--active] *)
  classActive : bool;
  (** the attribute [aria-hidden] of the element *)
  ariaHidden : option string;
  (** the text of the message element *)
  textContent : string;
  (** every text assigned to the message element, in order *)
  textHistory : list string;
  (** the text of the action element *)
  actionTextContent : string;
  (** the attribute [aria-hidden] of the action element *)
  actionAriaHidden : option string;
  (** the click listeners of the action element *)
  clickListeners : list nat;
  (** the callbacks passed to [setTimeout] that have not run yet *)
  timers : list Timer
}.

Definition setActive (v : bool) (s : Component) : Component :=
  {| active := v; actionHandler_ := actionHandler_ s; message_ := message_ s;
     actionText_ := actionText_ s; timeout_ := timeout_ s;
     queuedNotifications_ := queuedNotifications_ s;
     classActive := classActive s; ariaHidden := ariaHidden s;
     textContent := textContent s; textHistory := textHistory s;
     actionTextContent := actionTextContent s;
     actionAriaHidden := actionAriaHidden s;
     clickListeners := clickListeners s; timers := timers s |}.

Definition setActionHandler_ (v : option nat) (s : Component) : Component :=
  {| active := active s; actionHandler_ := v; message_ := message_ s;
     actionText_ := actionText_ s; timeout_ := timeout_ s;
     queuedNotifications_ := queuedNotifications_ s;
     classActive := classActive s; ariaHidden := ariaHidden s;
     textContent := textContent s; textHistory := textHistory s;
     actionTextContent := actionTextContent s;
     actionAriaHidden := actionAriaHidden s;
     clickListeners := clickListeners s; timers := timers s |}.

Definition setMessage_ (v : option string) (s : Component) : Component :=
  {| active := active s; actionHandler_ := actionHandler_ s; message_ := v;
     actionText_ := actionText_ s; timeout_ := timeout_ s;
     queuedNotifications_ := queuedNotifications_ s;
     classActive := classActive s; ariaHidden := ariaHidden s;
     textContent := textContent s; textHistory := textHistory s;
     actionTextContent := actionTextContent s;
     actionAriaHidden := actionAriaHidden s;
     clickListeners := clickListeners s; timers := timers s |}.

Definition setActionText_ (v : option string) (s : Component) : Component :=
  {| active := active s; actionHandler_ := actionHandler_ s;
     message_ := message_ s; actionText_ := v; timeout_ := timeout_ s;
     queuedNotifications_ := queuedNotifications_ s;
     classActive := classActive s; ariaHidden := ariaHidden s;
     textContent := textContent s; textHistory := textHistory s;
     actionTextContent := actionTextContent s;
     actionAriaHidden := actionAriaHidden s;
     clickListeners := clickListeners s; timers := timers s |}.

Definition setTimeout_ (v : option Z) (s : Component) : Component :=
  {| active := active s; actionHandler_ := actionHandler_ s;
     message_ := message_ s; actionText_ := actionText_ s; timeout_ := v;
     queuedNotifications_ := queuedNotifications_ s;
     classActive := classActive s; ariaHidden := ariaHidden s;
     textContent := textContent s; textHistory := textHistory s;
     actionTextContent := actionTextContent s;
     actionAriaHidden := actionAriaHidden s;
     clickListeners := clickListeners s; timers := timers s |}.

Definition setQueuedNotifications_ (v : list Data) (s : Component) : Component :=
  {| active := active s; actionHandler_ := actionHandler_ s;
     message_ := message_ s; actionText_ := actionText_ s;
     timeout_ := timeout_ s; queuedNotifications_ := v;
     classActive := classActive s; ariaHidden := ariaHidden s;
     textContent := textContent s; textHistory := textHistory s;
     actionTextContent := actionTextContent s;
     actionAriaHidden := actionAriaHidden s;
     clickListeners := clickListeners s; timers := timers s |}.

Definition setClassActive (v : bool) (s : Component) : Component :=
  {| active := active s; actionHandler_ := actionHandler_ s;
     message_ := message_ s; actionText_ := actionText_ s;
     timeout_ := timeout_ s; queuedNotifications_ := queuedNotifications_ s;
     classActive := v; ariaHidden := ariaHidden s;
     textContent := textContent s; textHistory := textHistory s;
     actionTextContent := actionTextContent s;
     actionAriaHidden := actionAriaHidden s;
     clickListeners := clickListeners s; timers := timers s |}.

Definition setAriaHidden (v : option string) (s : Component) : Component :=
  {| active := active s; actionHandler_ := actionHandler_ s;
     message_ := message_ s; actionText_ := actionText_ s;
     timeout_ := timeout_ s; queuedNotifications_ := queuedNotifications_ s;
     classActive := classActive s; ariaHidden := v;
     textContent := textContent s; textHistory := textHistory s;
     actionTextContent := actionTextContent s;
     actionAriaHidden := actionAriaHidden s;
     clickListeners := clickListeners s; timers := timers s |}.

Definition setActionTextContent (v : string) (s : Component) : Component :=
  {| active := active s; actionHandler_ := actionHandler_ s;
     message_ := message_ s; actionText_ := actionText_ s;
     timeout_ := timeout_ s; queuedNotifications_ := queuedNotifications_ s;
     classActive := classActive s; ariaHidden := ariaHidden s;
     textContent := textContent s; textHistory := textHistory s;
     actionTextContent := v; actionAriaHidden := actionAriaHidden s;
     clickListeners := clickListeners s; timers := timers s |}.

Definition setActionAriaHidden (v : option string) (s : Component) : Component :=
  {| active := active s; actionHandler_ := actionHandler_ s;
     message_ := message_ s; actionText_ := actionText_ s;
     timeout_ := timeout_ s; queuedNotifications_ := queuedNotifications_ s;
     classActive := classActive s; ariaHidden := ariaHidden s;
     textContent := textContent s; textHistory := textHistory s;
     actionTextContent := actionTextContent s; actionAriaHidden := v;
     clickListeners := clickListeners s; timers := timers s |}.

Definition setClickListeners (v : list nat) (s : Component) : Component :=
  {| active := active s; actionHandler_ := actionHandler_ s;
     message_ := message_ s; actionText_ := actionText_ s;
     timeout_ := timeout_ s; queuedNotifications_ := queuedNotifications_ s;
     classActive := classActive s; ariaHidden := ariaHidden s;
     textContent := textContent s; textHistory := textHistory s;
     actionTextContent := actionTextContent s;
     actionAriaHidden := actionAriaHidden s; clickListeners := v;
     timers := timers s |}.

Definition setTimers (v : list Timer) (s : Component) : Component :=
  {| active := active s; actionHandler_ := actionHandler_ s;
     message_ := message_ s; actionText_ := actionText_ s;
     timeout_ := timeout_ s; queuedNotifications_ := queuedNotifications_ s;
     classActive := classActive s; ariaHidden := ariaHidden s;
     textContent := textContent s; textHistory := textHistory s;
     actionTextContent := actionTextContent s;
     actionAriaHidden := actionAriaHidden s;
     clickListeners := clickListeners s; timers := v |}.

(** An assignment to [textContent] of the message element. *)
Definition setTextContent (v : string) (s : Component) : Component :=
  {| active := active s; actionHandler_ := actionHandler_ s;
     message_ := message_ s; actionText_ := actionText_ s;
     timeout_ := timeout_ s; queuedNotifications_ := queuedNotifications_ s;
     classActive := classActive s; ariaHidden := ariaHidden s;
     textContent := v; textHistory := textHistory s ++ [v];
     actionTextContent := actionTextContent s;
     actionAriaHidden := actionAriaHidden s;
     clickListeners := clickListeners s; timers := timers s |}.

(** [setTimeout(callback, delay)] *)
Definition setTimeout (f : Callback) (ms : option Z) (s : Component)
    : Component :=
  setTimers (timers s ++ [{| callback := f; delay := ms |}]) s.

(** [addEventListener('click', handler)] on the action element: a listener
    that is already there is not added again. *)
Definition addEventListener (handler : nat) (s : Component) : Component :=
  if bool_decide (handler ∈ clickListeners s) then s
  else setClickListeners (clickListeners s ++ [handler]) s.

(** [removeEventListener('click', handler)] on the action element. *)
Definition removeEventListener (handler : option nat) (s : Component)
    : Component :=
  match handler with
  | Some h => setClickListeners (filter (fun l => l ≠ h) (clickListeners s)) s
  | None => s
  end.

(** The element parts the constructor finds. *)
Record Dom := {
  domClassActive : bool;
  domAriaHidden : option string;
  domTextContent : string;
  domActionTextContent : string;
  domActionAriaHidden : option string;
  domClickListeners : list nat
}.

Definition setActionHidden_ (value : bool) (s : Component) : Component :=
  if value then setActionAriaHidden (Some "true") s
  else setActionAriaHidden None s.

(** The constructor, for an element that has the message element and the
    action element. *)
Definition MaterialSnackbar (element : Dom) : Component :=
  setActionHidden_ true
    {| active := false;
       actionHandler_ := None;
       message_ := None;
       actionText_ := None;
       timeout_ := None;
       queuedNotifications_ := [];
       classActive := domClassActive element;
       ariaHidden := domAriaHidden element;
       textContent := domTextContent element;
       textHistory := [];
       actionTextContent := domActionTextContent element;
       actionAriaHidden := domActionAriaHidden element;
       clickListeners := domClickListeners element;
       timers := [] |}.

Definition displaySnackbar_ (s : Component) : Component :=
  let s := setAriaHidden (Some "true") s in
  let s :=
    match actionHandler_ s with
    | Some handler =>
        let s := setActionTextContent (default "" (actionText_ s)) s in
        let s := addEventListener handler s in
        setActionHidden_ false s
    | None => s
    end in
  let s := setTextContent (default "" (message_ s)) s in
  let s := setClassActive true s in
  let s := setAriaHidden (Some "false") s in
  setTimeout CleanupBound (timeout_ s) s.

Definition showSnackbar (data : option Data) (s : Component)
    : Result * Component :=
  match data with
  | None => (Failed NoData, s)
  | Some data =>
      match message data with
      | None => (Failed NoMessage, s)
      | Some _ =>
          if truthyFunction (actionHandler data)
             && negb (truthyString (actionText data))
          then (Failed NoActionText, s)
          else if active s
          then (Done,
                setQueuedNotifications_ (queuedNotifications_ s ++ [data]) s)
          else
            let s := setActive true s in
            let s := setMessage_ (message data) s in
            let s :=
              if truthyNumber (timeout data)
              then setTimeout_ (timeout data) s
              else setTimeout_ (Some 2750%Z) s in
            let s :=
              if truthyFunction (actionHandler data)
              then setActionHandler_ (actionHandler data) s
              else s in
            let s :=
              if truthyString (actionText data)
              then setActionText_ (actionText data) s
              else s in
            (Done, displaySnackbar_ s)
      end
  end.

Definition checkQueue_ (s : Component) : Result * Component :=
  match queuedNotifications_ s with
  | [] => (Done, s)
  | data :: rest => showSnackbar (Some data) (setQueuedNotifications_ rest s)
  end.

Definition cleanup_ (s : Component) : Component :=
  let s := setClassActive false s in
  setTimeout CleanupInner (Some 250%Z) s.

(** The function that [cleanup_] passes to [setTimeout]. *)
Definition cleanupInner (s : Component) : Result * Component :=
  let s := setAriaHidden (Some "true") s in
  let s := setTextContent "" s in
  let s :=
    if negb (truthyString (actionAriaHidden s))
    then
      let s := setActionHidden_ true s in
      let s := setActionTextContent "" s in
      removeEventListener (actionHandler_ s) s
    else s in
  let s := setActionHandler_ None s in
  let s := setMessage_ None s in
  let s := setActionText_ None s in
  let s := setActive false s in
  checkQueue_ s.

(** What happens to the component: a call of [showSnackbar], or one of the
    pending timers fires. *)
Inductive Step :=
  | Show (data : option Data)
  | Fire (timer : nat).

Definition step (e : Step) (s : Component) : Result * Component :=
  match e with
  | Show data => showSnackbar data s
  | Fire i =>
      match timers s !! i with
      | None => (Done, s)
      | Some timer =>
          let s := setTimers (delete i (timers s)) s in
          match callback timer with
          | CleanupBound => (Done, cleanup_ s)
          | CleanupInner => cleanupInner s
          end
      end
  end.

Definition run (steps : list Step) (s : Component) : Component :=
  fold_left (fun s e => (step e s).2) steps s.

(** A notification that [showSnackbar] does not reject. *)
Definition accepted (data : option Data) : bool :=
  match data with
  | Some data =>
      bool_decide (is_Some (message data))
      && implb (truthyFunction (actionHandler data))
           (truthyString (actionText data))
  | None => false
  end.

(** The texts of the notifications passed to [showSnackbar] and not
    rejected, in the order of the calls. *)
Definition acceptedMessages (steps : list Step) : list string :=
  steps ≫= (fun e => match e with
                     | Show (Some data) =>
                         if accepted (Some data)
                         then [default "" (message data)]
                         else []
                     | _ => []
                     end).

(** The text of the notification on display, if there is one, and the
    texts that wait. *)
Definition displayed (s : Component) : list string :=
  if active s then [default "" (message_ s)] else [].

Definition waiting (s : Component) : list string :=
  (fun data => default "" (message data)) <$> queuedNotifications_ s.

(** The history of the message element after the notifications [texts]
    have been shown and cleaned up one after the other. *)
Definition shownAndCleared (texts : list string) : list string :=
  texts ≫= (fun text => [text; ""]).



End Snackbar.

(** The state of a snackbar between two steps: the waiting notifications
    are acceptable; an idle snackbar has no timer, no waiting notification
    and no handler; an active one has exactly one timer, either the one
    that ends the display, after the timeout of the notification, or the
    one that finishes the cleanup. *)
Record SnackbarInv (s : Snackbar.Component) : Prop := {
  snackbar_queue :
    Forall (fun data => Snackbar.accepted (Some data) = true)
      (Snackbar.queuedNotifications_ s);
  snackbar_idle :
    Snackbar.active s = false →
    Snackbar.timers s = [] ∧ Snackbar.queuedNotifications_ s = []
    ∧ Snackbar.actionHandler_ s = None;
  snackbar_busy :
    Snackbar.active s = true →
    (Snackbar.timers s
     = [{| Snackbar.callback := Snackbar.CleanupBound;
           Snackbar.delay := Snackbar.timeout_ s |}]
     ∧ Snackbar.classActive s = true
     ∧ Snackbar.textContent s = default "" (Snackbar.message_ s))
    ∨ (Snackbar.timers s
       = [{| Snackbar.callback := Snackbar.CleanupInner;
             Snackbar.delay := Some 250%Z |}]
       ∧ Snackbar.classActive s = false)
}.

(** The history of the message element, against the texts accepted so
    far. *)
Definition SnackbarHistory (texts : list string) (s : Snackbar.Component)
    : Prop :=
  ∃ done,
    texts = done ++ Snackbar.displayed s ++ Snackbar.waiting s
    ∧ Snackbar.textHistory s
      = Snackbar.shownAndCleared done ++ Snackbar.displayed s.


(** The number of timers that still have to fire before the snackbar is
    idle. *)
Definition pendingSteps (s : Snackbar.Component) : nat :=
  match Snackbar.timers s with
  | [] => 0
  | timer :: _ =>
      match Snackbar.callback timer with
      | Snackbar.CleanupBound => 2
      | Snackbar.CleanupInner => 1
      end + 2 * length (Snackbar.queuedNotifications_ s)
  end.

(** ** The string functions between the components

    Between the components the sample defines functions on strings:
    [clothef] (a [substr]), [godlc] (one character), [rccaf] (the length),
    [brights] (a concatenation in one of two orders), [quotient6] (a loop
    that rearranges the characters of a string) and [zcwqc] (a loop that
    cuts a string at a separator).  They read and write global variables;
    those that matter are kept in a record, the others ([lotd], [wtfxrx],
    [woodt], [jxeud], [urgjm], [which6], [up6], [fell1]) are written before
    they are read in each call and are embedded as local values.  A string
    is the list of its code units. *)

Module Decoder.

Section Strings.

Context {A : Type} `{EqDecision A}.

Record Globals := {
  ozekdxel : Z;
  thus4o : Z;
  ulwmoge : Z;
  rosep : Z;
  pnvjy : list (list A);
  oht : Z
}.

(** The globals as the top level of the sample leaves them. *)
Definition toplevel : Globals :=
  {| ozekdxel := 1;
     thus4o := 1;
     ulwmoge := 1 - 1;
     rosep := 1 + 1 + 1;
     pnvjy := [];
     oht := 1 - 1 |}.

(** [String.prototype.substr(start, length)]: a negative [start] counts
    from the end, a missing [length] reaches to the end, a negative one
    gives the empty string. *)
Definition substr (s : list A) (start : Z) (length : option Z) : list A :=
  let size := Z.of_nat (List.length s) in
  let from :=
    if (start <? 0)%Z then Z.max (size + start) 0 else Z.min start size in
  let count :=
    match length with
    | Some n => Z.min (Z.max n 0) (size - from)
    | None => (size - from)%Z
    end in
  take (Z.to_nat count) (drop (Z.to_nat from) s).

Definition clothef (call09 : list A) (ugpu : Z) (quiet3 : option Z)
    : list A :=
  substr call09 ugpu quiet3.

Definition godlc (g : Globals) (hxxoq : list A) (noons : Z) : list A :=
  clothef hxxoq noons (Some (ozekdxel g)).

Definition rccaf {B} (awhdqj : list B) : Z :=
  Z.of_nat (List.length awhdqj).

(** Whether [n % d] is truthy: the remainder has the sign of [n], and the
    remainder by zero is [NaN]. *)
Definition remainderTruthy (n d : Z) : bool :=
  if (d =? 0)%Z then false else negb (Z.rem n d =? 0)%Z.

Definition brights (g : Globals) (similare3 stood6 : list A) (ethh0 : Z)
    : list A :=
  if remainderTruthy ethh0 (rosep g - thus4o g)
  then similare3 ++ stood6
  else stood6 ++ similare3.

(** The loop of [quotient6], [rounds] iterations from [which6] on. *)
Fixpoint quotient6_loop (g : Globals) (sibai : list A) (rounds : nat)
    (which6 : Z) (urgjm : list A) : list A :=
  match rounds with
  | 0 => urgjm
  | S rounds =>
      let jxeud := godlc g sibai which6 in
      let urgjm := brights g urgjm jxeud which6 in
      quotient6_loop g sibai rounds (which6 + 1)%Z urgjm
  end.

Definition quotient6 (g : Globals) (sibai : list A) : list A :=
  quotient6_loop g sibai (Z.to_nat (33414 - ulwmoge g)) (ulwmoge g) [].

(** The loop of [zcwqc], [rounds] iterations from [fell1] on, on the
    globals [pnvjy] and [oht]. *)
Fixpoint zcwqc_loop (liveb paelpj1 : list A) (up6 : Z) (rounds : nat)
    (fell1 : Z) (pnvjy : list (list A)) (oht : Z) : list (list A) * Z :=
  match rounds with
  | 0 => (pnvjy, oht)
  | S rounds =>
      if bool_decide (clothef liveb fell1 (Some up6) = paelpj1)
      then zcwqc_loop liveb paelpj1 up6 rounds (fell1 + 1)%Z
             (pnvjy ++ [clothef liveb oht (Some (fell1 - oht)%Z)])
             (fell1 + up6)%Z
      else zcwqc_loop liveb paelpj1 up6 rounds (fell1 + 1)%Z pnvjy oht
  end.

(** [zcwqc] returns the global array [pnvjy]; the globals it leaves are
    returned with it. *)
Definition zcwqc (g : Globals) (liveb paelpj1 : list A)
    : list (list A) * Globals :=
  let up6 := rccaf paelpj1 in
  let '(pieces, last) :=
    zcwqc_loop liveb paelpj1 up6
      (Z.to_nat (rccaf liveb - up6 - ulwmoge g + 1)) (ulwmoge g)
      (pnvjy g) (oht g) in
  let pieces := pieces ++ [clothef liveb last None] in
  (pieces,
   {| ozekdxel := ozekdxel g;
      thus4o := thus4o g;
      ulwmoge := ulwmoge g;
      rosep := rosep g;
      pnvjy := pieces;
      oht := last |}).

(** The characters at the even and at the odd positions of a string. *)
Fixpoint alternate (s : list A) : list A * list A :=
  match s with
  | [] => ([], [])
  | x :: s => let '(evens, odds) := alternate s in (x :: odds, evens)
  end.

Definition evens (s : list A) : list A := (alternate s).1.
Definition odds (s : list A) : list A := (alternate s).2.

(** [Array.prototype.join] with a separator. *)
Fixpoint join (separator : list A) (pieces : list (list A)) : list A :=
  match pieces with
  | [] => []
  | [piece] => piece
  | piece :: pieces => piece ++ separator ++ join separator pieces
  end.

(** A separator that cannot overlap itself: no proper, non-empty prefix of
    it is also its suffix. *)
Definition unbordered (separator : list A) : Prop :=
  separator ≠ []
  ∧ ∀ n, (0 < n < List.length separator)%nat →
         take n separator ≠ drop (List.length separator - n) separator.

(** The separator occurs in a string at a position. *)
Definition occursAt (separator text : list A) (j : nat) : Prop :=
  take (List.length separator) (drop j text) = separator.

End Strings.

Arguments Globals : clear implicits.

End Decoder.

(** * Properties *)

(** ** The primitives on small inputs *)

Example split_marked : Js.split ",A,B" = [""; "A"; "B"].
Proof. reflexivity. Qed.

Example split_empty : Js.split "" = [""].
Proof. reflexivity. Qed.

Example join_marked : Js.join [""; "Widget"] = ",Widget".
Proof. reflexivity. Qed.

Example splice_from_the_end : Js.splice1 (-1) [1; 2; 3] = [1; 2].
Proof. reflexivity. Qed.

Example indexOf_undefined :
  Js.indexOf (Js.strictEquals Js.Undefined) [""; "A"; "B"] = (-1)%Z.
Proof. reflexivity. Qed.

Example descriptor_has_no_classAsString c :
  getProperty c "classAsString" = Js.Undefined
  ∧ getProperty c "className" = Js.Str (className c).
Proof. split; reflexivity. Qed.

Example upgradeOrder_tree :
  nodeId <$> upgradeOrder (initialState ∅) [Scenario.treeNode] = [1; 4; 5].
Proof. reflexivity. Qed.

(** ** Splitting and joining *)

Section SplitJoin.

Lemma split_nonempty s : Js.split s ≠ [].
Proof.
  destruct s as [|c rest]; simpl; [done|].
  destruct (Ascii.eqb c ","); [done|].
  by destruct (Js.split rest).
Qed.







End SplitJoin.

(** ** Searching arrays *)

Section IndexOf.
Context {A : Type}.
Implicit Types (same : A → bool) (l : list A).

Lemma indexOf_from_none same l i :
  (0 ≤ i)%Z →
  Js.indexOf_from same l i = (-1)%Z ↔ ∀ x, x ∈ l → same x = false.
Proof.
  revert i. induction l as [|y l IH]; intros i Hi; simpl.
  - split; [|done]. intros _ x Hx. by apply elem_of_nil in Hx.
  - destruct (same y) eqn:Hy.
    + split; [lia|]. intros H. specialize (H y). rewrite Hy in H.
      discriminate H. by left.
    + rewrite IH by lia. split.
      * intros H x [->|Hx]%elem_of_cons; auto.
      * intros H x Hx. apply H. by right.
Qed.

Lemma indexOf_none same l :
  Js.indexOf same l = (-1)%Z ↔ ∀ x, x ∈ l → same x = false.
Proof. by apply indexOf_from_none. Qed.

Lemma splice1_subseteq (i : Z) l x : x ∈ Js.splice1 i l → x ∈ l.
Proof.
  unfold Js.splice1. intros Hx.
  by eapply list_elem_of_delete_inv.
Qed.

End IndexOf.

(** ** Induction on nodes *)

Lemma foldr_max_elem {A} (f : A → nat) (l : list A) x :
  x ∈ l → (f x ≤ foldr Nat.max 0 (f <$> l))%nat.
Proof.
  induction l as [|y l IH]; [by intros ?%elem_of_nil|].
  rewrite fmap_cons. cbn [foldr].
  intros [->|Hx]%elem_of_cons; [lia|].
  specialize (IH Hx). lia.
Qed.

Lemma height_children n child : child ∈ children n → height child < height n.
Proof.
  destruct n as [i k c p childElements after]. cbn [children height].
  intros Hchild. pose proof (foldr_max_elem height _ _ Hchild). lia.
Qed.

Lemma lookupConstructed_elem name l after :
  lookupConstructed name l = Some after → (name, after) ∈ l.
Proof.
  induction l as [|[name' after'] l IH]; [done|]. cbn [lookupConstructed].
  case_bool_decide as Hname.
  - intros [= <-]. subst name'. by left.
  - intros Hl. right. by apply IH.
Qed.

Lemma height_afterConstructor name n :
  (height (afterConstructor name n) ≤ height n)%nat.
Proof.
  unfold afterConstructor.
  destruct (lookupConstructed name (constructed n)) as [after|] eqn:Hl;
    [|done].
  apply lookupConstructed_elem in Hl.
  destruct n as [i k c p childElements l]. cbn [constructed height] in *.
  pose proof (foldr_max_elem (fun '(_, after) => height after) _ _ Hl)
    as Hle.
  change (default _ (Some after)) with after.
  set (m := foldr Nat.max 0 ((fun '(_, after) => height after) <$> l)) in *.
  change (height after ≤ m)%nat in Hle. lia.
Qed.

Lemma height_afterConstructors names n :
  (height (afterConstructors names n) ≤ height n)%nat.
Proof.
  revert n. induction names as [|name names IH]; intros n; [done|].
  cbn [afterConstructors fold_left].
  etrans; [apply IH|]. apply height_afterConstructor.
Qed.

Lemma height_upgraded_children names n child :
  child ∈ children (afterConstructors names n) → height child < height n.
Proof.
  intros Hchild%height_children.
  pose proof (height_afterConstructors names n). lia.
Qed.

Lemma afterConstructors_leaf names i classes :
  afterConstructors names (Scenario.leaf i classes) = Scenario.leaf i classes.
Proof. by induction names. Qed.

(** ** The recursion of [upgradeElementsInternal] *)

(** A depth that is at least the height of the node gives the same
    command, so [upgradeEntry] satisfies the equation of the source. *)
Lemma upgradeEntry_within_enough depth element s :
  (height element ≤ depth)%nat →
  upgradeEntry_within depth element s = upgradeEntry element s.
Proof.
  unfold upgradeEntry.
  assert (∀ d1 d2 e s0,
            (height e ≤ d1)%nat → (height e ≤ d2)%nat →
            upgradeEntry_within d1 e s0 = upgradeEntry_within d2 e s0)
    as Hsame; [|intros; by apply Hsame].
  induction d1 as [|d1 IH]; intros d2 e s0 H1 H2.
  { destruct e. simpl in H1. lia. }
  destruct d2 as [|d2]; [destruct e; simpl in H2; lia|].
  cbn [upgradeEntry_within].
  destruct (instanceofHTMLElement e); [|done].
  destruct (upgradeElementInternal e None s0) as [[|err] s']; [|done].
  generalize s'. clear s'.
  assert (∀ l, (∀ c, c ∈ l → height c < height e) →
               ∀ s', forEach (upgradeEntry_within d1) l s'
                     = forEach (upgradeEntry_within d2) l s') as Hlist.
  { induction l as [|c l IHl]; intros Hl s'; [done|].
    cbn [forEach]. unfold andThen.
    rewrite (IH d2 c s') by
      (pose proof (Hl c (list_elem_of_here _ _)); lia).
    destruct (upgradeEntry_within d2 c s') as [[|err] s'']; [|done].
    apply IHl. intros c' Hc'. apply Hl. by right. }
  apply Hlist. intros c Hc. by eapply height_upgraded_children.
Qed.

Lemma upgradeEntry_unfold element s :
  upgradeEntry element s
  = if instanceofHTMLElement element
    then match upgradeElementInternal element None s with
         | (Normal, s') =>
             forEach upgradeEntry
               (children
                  (afterConstructors (constructorsRun s element) element))
               s'
         | (Thrown e, s') => (Thrown e, s')
         end
    else (Normal, s).
Proof.
  unfold upgradeEntry at 1.
  destruct (height element) as [|depth] eqn:Hheight;
    [destruct element; simpl in Hheight; lia|].
  cbn [upgradeEntry_within].
  destruct (instanceofHTMLElement element); [|done].
  destruct (upgradeElementInternal element None s) as [[|err] s']; [|done].
  generalize s'. clear s'.
  assert (∀ l, (∀ c, c ∈ l → (height c ≤ depth)%nat) →
               ∀ s', forEach (upgradeEntry_within depth) l s'
                     = forEach upgradeEntry l s') as Hlist.
  { induction l as [|c l IHl]; intros Hl s'; [done|].
    cbn [forEach]. unfold andThen.
    rewrite upgradeEntry_within_enough by (apply Hl; by left).
    destruct (upgradeEntry c s') as [[|err] s'']; [|done].
    apply IHl. intros c' Hc'. apply Hl. by right. }
  apply Hlist. intros c Hc.
  pose proof (height_upgraded_children _ _ _ Hc). lia.
Qed.

(** Induction along the recursion of [upgradeEntry]. *)
Lemma upgradeEntry_ind (P : Node → Prop) :
  (∀ element,
      (∀ names child,
          child ∈ children (afterConstructors names element) → P child) →
      P element) →
  ∀ element, P element.
Proof.
  intros HP element.
  assert (∀ n e, height e < n → P e) as Hall;
    [|apply (Hall (S (height element))); lia].
  induction n as [|n IH]; intros e He; [lia|].
  apply HP. intros names child Hchild. apply IH.
  pose proof (height_upgraded_children _ _ _ Hchild). lia.
Qed.

(** ** Commands *)


(** ** Looking up descriptors *)

Lemma findIndex_Some name l i :
  findIndex name l = Some i →
  ∃ c, l !! i = Some c ∧ className c = name
       ∧ ∀ j c', j < i → l !! j = Some c' → className c' ≠ name.
Proof.
  revert i. induction l as [|c l IH]; intros i; simpl; [done|].
  case_bool_decide as Hc.
  - intros [= <-]. exists c. split_and!; [done..|]. lia.
  - destruct (findIndex name l) as [i'|]; [|done].
    intros [= <-]. destruct (IH i' eq_refl) as (c' & Hl & Hn & Hfirst).
    exists c'. split_and!; [done..|].
    intros [|j] c'' Hj; simpl.
    + by intros [= <-].
    + apply Hfirst. lia.
Qed.

Lemma findIndex_None name l :
  findIndex name l = None ↔ name ∉ className <$> l.
Proof.
  induction l as [|c l IH]; simpl.
  - split; [|done]. intros _ H. by apply elem_of_nil in H.
  - case_bool_decide as Hc.
    + split; [done|]. intros H. exfalso. apply H. rewrite Hc. by left.
    + rewrite not_elem_of_cons, <- IH.
      destruct (findIndex name l) as [i|]; simpl.
      * split; [done|]. by intros [_ ?].
      * split; [|done]. intros _. split; [congruence|done].
Qed.

Lemma findIndex_NoDup l i c :
  NoDup (className <$> l) → l !! i = Some c →
  findIndex (className c) l = Some i.
Proof.
  revert i. induction l as [|c' l IH]; intros i; [done|].
  rewrite fmap_cons, NoDup_cons. intros [Hnotin Hnd].
  destruct i as [|i]; simpl.
  - intros [= ->]. by rewrite bool_decide_eq_true_2.
  - intros Hl. rewrite bool_decide_eq_false_2.
    + by rewrite (IH i Hnd Hl).
    + intros Heq. apply Hnotin. rewrite Heq.
      apply list_elem_of_fmap_2. by eapply list_elem_of_lookup_2.
Qed.

Lemma find_Some name s c :
  findRegisteredClass_ name s = Some c →
  c ∈ registeredComponents_ s ∧ className c = name.
Proof.
  unfold findRegisteredClass_.
  destruct (findIndex name _) as [i|] eqn:Hi; [|done].
  apply findIndex_Some in Hi as (c' & Hl & Hn & _).
  rewrite Hl. intros [= <-]. split; [|done].
  by eapply list_elem_of_lookup_2.
Qed.

Lemma find_None name s :
  findRegisteredClass_ name s = None ↔ name ∉ registeredNames s.
Proof.
  unfold findRegisteredClass_, registeredNames.
  rewrite <- findIndex_None.
  destruct (findIndex name _) as [i|] eqn:Hi; [|done].
  apply findIndex_Some in Hi as (c' & Hl & _). rewrite Hl. done.
Qed.

Lemma find_NoDup s c :
  NoDup (registeredNames s) → c ∈ registeredComponents_ s →
  findRegisteredClass_ (className c) s = Some c.
Proof.
  intros Hnd [i Hi]%list_elem_of_lookup_1.
  unfold findRegisteredClass_. by rewrite (findIndex_NoDup _ i c Hnd Hi).
Qed.

Lemma scanRegistered_subseteq s element c :
  c ∈ scanRegistered s element → c ∈ registeredComponents_ s.
Proof.
  unfold scanRegistered.
  assert (∀ l acc,
    c ∈ fold_left (fun classesToUpgrade component =>
       if classList_contains element (cssClass component)
          && (Js.indexOf (sameConfig component) classesToUpgrade =? -1)%Z
          && negb (isElementUpgraded_ s (nodeId element) (className component))
       then classesToUpgrade ++ [component]
       else classesToUpgrade) l acc → c ∈ acc ∨ c ∈ l) as H.
  { induction l as [|x l IH]; intros acc; simpl; [by left|].
    intros [Hc|Hc]%IH.
    - destruct (_ && _).
      + apply elem_of_app in Hc as [Hc|Hc%list_elem_of_singleton];
          [by left|right; subst; by left].
      + by left.
    - right. by right. }
  intros [Hc|Hc]%H; [by apply elem_of_nil in Hc|done].
Qed.

(** ** One upgrade *)

Lemma callCallbacks_frame registeredClass element s :
  let s' := callCallbacks registeredClass element s in
  registeredComponents_ s' = registeredComponents_ s
  ∧ createdComponents_ s' = createdComponents_ s
  ∧ callbackArrays s' = callbackArrays s
  ∧ dataUpgraded s' = dataUpgraded s
  ∧ widgetProperty s' = widgetProperty s
  ∧ nextComponentId s' = nextComponentId s.
Proof.
  unfold callCallbacks.
  generalize (default [] (callbackArrays s !! callbacks registeredClass)).
  intros l. revert s. induction l as [|cb l IH]; intros s; [done|].
  cbn [fold_left]. destruct (IH (record (CalledBack cb element) s))
    as (-> & -> & -> & -> & -> & ->). done.
Qed.

Lemma upgradeFor_normal registeredClass element upgradedList s :
  constructorThrows (classConstructor registeredClass) element = false →
  ∃ s', upgradeFor registeredClass element upgradedList s = (Normal, s')
    ∧ registeredComponents_ s' = registeredComponents_ s
    ∧ callbackArrays s' = callbackArrays s
    ∧ dataUpgraded s'
      = <[nodeId element := Js.join upgradedList]> (dataUpgraded s)
    ∧ createdComponents_ s'
      = createdComponents_ s
        ++ [{| componentId := nextComponentId s;
               element_ := nodeId element;
               mdlComponentConfigInternal_ := registeredClass |}]
    ∧ nextComponentId s' = S (nextComponentId s).
Proof.
  intros Hctor. unfold upgradeFor. rewrite Hctor.
  eexists. split; [done|].
  set (s1 := setCreated _ _).
  destruct (callCallbacks_frame registeredClass (nodeId element) s1)
    as (Hr & Hc & Ha & Hd & Hw & Hn).
  destruct (truthy (widget registeredClass)); simpl;
    rewrite ?Hr, ?Hc, ?Ha, ?Hd, ?Hn; done.
Qed.

Lemma upgradeFor_thrown registeredClass element upgradedList s :
  constructorThrows (classConstructor registeredClass) element = true →
  ∃ s', upgradeFor registeredClass element upgradedList s
        = (Thrown (ConstructorError
                     (constructorName (classConstructor registeredClass))), s')
    ∧ registeredComponents_ s' = registeredComponents_ s
    ∧ callbackArrays s' = callbackArrays s
    ∧ dataUpgraded s'
      = <[nodeId element := Js.join upgradedList]> (dataUpgraded s)
    ∧ createdComponents_ s' = createdComponents_ s
    ∧ nextComponentId s' = nextComponentId s.
Proof.
  intros Hctor. unfold upgradeFor. rewrite Hctor. eexists. done.
Qed.

(** ** Steps *)

Lemma Step_refl s : Step s s.
Proof. split; auto. Qed.

Lemma Step_trans s1 s2 s3 : Step s1 s2 → Step s2 s3 → Step s1 s3.
Proof.
  intros [Hr1 Ha1 Hd1 Hc1] [Hr2 Ha2 Hd2 Hc2]. split.
  - congruence.
  - congruence.
  - auto.
  - intros c [Hc|[Hd Hc]]%Hc2.
    + destruct (Hc1 c Hc) as [?|[? ?]]; auto.
    + right. split; [done|]. by rewrite <- Hr1.
Qed.

Lemma Step_Inv s s' : Inv s → Step s s' → Inv s'.
Proof.
  intros [Hn Ha Hc Ho] [Hr Harr Hd Hcr]. split.
  - unfold registeredNames. by rewrite Hr.
  - rewrite Hr, Harr. done.
  - unfold registeredNames. rewrite Hr, Harr. intros c [Hin|[Hsome Hin]]%Hcr.
    + destruct (Hc c Hin) as (? & ? & ?). auto.
    + split_and!; [done| |by apply Ha].
      by apply list_elem_of_fmap_2.
  - by rewrite Hr.
Qed.

Lemma andThen_Step (c1 c2 : Cmd) s :
  Step s (c1 s).2 → (∀ s', Step s s' → Step s' (c2 s').2) →
  Step s ((c1 ;; c2) s).2.
Proof.
  intros H1 H2. unfold andThen.
  destruct (c1 s) as [[|e] s']; simpl in *; [|done].
  eapply Step_trans; [done|]. by apply H2.
Qed.

Lemma forEach_Step {A} (f : A → Cmd) l :
  (∀ x s, x ∈ l → Step s (f x s).2) → ∀ s, Step s (forEach f l s).2.
Proof.
  induction l as [|x l IH]; intros Hf s; simpl.
  - apply Step_refl.
  - apply andThen_Step.
    + apply Hf. by left.
    + intros s' _. apply IH. intros y s'' Hy. apply Hf. by right.
Qed.

Lemma record_Step e s : Step s (record e s).
Proof. split; auto. Qed.

Lemma upgradeFor_Step registeredClass element upgradedList s :
  registeredClass ∈ registeredComponents_ s →
  Step s (upgradeFor registeredClass element upgradedList s).2.
Proof.
  intros Hin.
  destruct (constructorThrows (classConstructor registeredClass) element)
    eqn:Hctor.
  - destruct (upgradeFor_thrown _ _ upgradedList s Hctor)
      as (s' & -> & Hr & Ha & Hd & Hc & _).
    split; simpl; [done..| |].
    + intros e. rewrite Hd, lookup_insert_is_Some. intros ?.
      destruct (decide (nodeId element = e)); auto.
    + intros c. rewrite Hc. auto.
  - destruct (upgradeFor_normal _ _ upgradedList s Hctor)
      as (s' & -> & Hr & Ha & Hd & Hc & _).
    split; simpl; [done..| |].
    + intros e. rewrite Hd, lookup_insert_is_Some. intros ?.
      destruct (decide (nodeId element = e)); auto.
    + intros c. rewrite Hc, Hd.
      intros [?|Hnew%list_elem_of_singleton]%elem_of_app; [by left|right].
      subst c. simpl. by rewrite lookup_insert_eq.
Qed.

Lemma upgradeLoop_Step element classesToUpgrade upgradedList s :
  (∀ c, Some c ∈ classesToUpgrade → c ∈ registeredComponents_ s) →
  Step s (upgradeLoop element classesToUpgrade upgradedList s).2.
Proof.
  revert upgradedList s.
  induction classesToUpgrade as [|[c|] rest IH]; intros upgradedList s Hin;
    simpl; try apply Step_refl.
  apply andThen_Step.
  - apply upgradeFor_Step, Hin. by left.
  - intros s' Hs'. apply IH. intros c' Hc'.
    rewrite (step_registered _ _ Hs'). apply Hin. by right.
Qed.

Lemma upgradeElementInternal_Step element optJsClass s :
  Step s (upgradeElementInternal element optJsClass s).2.
Proof.
  unfold upgradeElementInternal.
  destruct (instanceofElement element); simpl; [|apply Step_refl].
  destruct (upgradingPrevented element); simpl; [apply record_Step|].
  eapply Step_trans;
    [apply (record_Step (Dispatched "mdl-componentupgrading" (nodeId element)))|].
  apply upgradeLoop_Step. intros c Hc.
  assert (∀ s0, Some c ∈ Some <$> scanRegistered s0 element →
                c ∈ registeredComponents_ s0) as Hscan.
  { intros s0 (c' & Heq & Hc')%list_elem_of_fmap.
    injection Heq as <-. by eapply scanRegistered_subseteq. }
  destruct optJsClass as [jsClass|]; [|by apply Hscan in Hc].
  destruct (Js.falsy (Some jsClass)); [by apply Hscan in Hc|].
  destruct (negb _); [|by apply elem_of_nil in Hc].
  apply list_elem_of_singleton in Hc. symmetry in Hc.
  by apply find_Some in Hc as [? _].
Qed.

Lemma upgradeEntry_Step element s : Step s (upgradeEntry element s).2.
Proof.
  revert s. induction element as [element IH] using upgradeEntry_ind.
  intros s. rewrite upgradeEntry_unfold.
  destruct (instanceofHTMLElement _); [|apply Step_refl].
  pose proof (upgradeElementInternal_Step element None s) as Hstep.
  destruct (upgradeElementInternal element None s) as [[|err] s']; [|done].
  eapply Step_trans; [exact Hstep|].
  apply forEach_Step. intros child s'' Hchild. by eapply IH.
Qed.

Lemma upgradeElementsInternal_Step elements s :
  Step s (upgradeElementsInternal elements s).2.
Proof. apply forEach_Step. intros. apply upgradeEntry_Step. Qed.

Lemma upgradeDomFor_Step document optJsClass optCssClass s :
  Step s (upgradeDomFor document optJsClass optCssClass s).2.
Proof.
  unfold upgradeDomFor. destruct (querySelectorAll _ _); [|apply Step_refl].
  apply forEach_Step. intros. apply upgradeElementInternal_Step.
Qed.

Lemma upgradeDomInternal_Step document optJsClass optCssClass s :
  Step s (upgradeDomInternal document optJsClass optCssClass s).2.
Proof.
  unfold upgradeDomInternal.
  destruct optJsClass, optCssClass; try apply upgradeDomFor_Step.
  apply forEach_Step. intros. apply upgradeDomFor_Step.
Qed.

Lemma upgradeAllRegisteredInternal_Step document s :
  Step s (upgradeAllRegisteredInternal document s).2.
Proof.
  unfold upgradeAllRegisteredInternal.
  apply forEach_Step. intros. apply upgradeDomInternal_Step.
Qed.

Lemma deconstructComponentInternal_Step component s :
  Step s (deconstructComponentInternal component s).2.
Proof.
  unfold deconstructComponentInternal. cbn [dataUpgraded setCreated].
  destruct (dataUpgraded s !! element_ component) eqn:Hattr; simpl.
  - split; simpl; [done..| |].
    + intros e He. rewrite lookup_insert_is_Some.
      destruct (decide (element_ component = e)); auto.
    + intros c Hc. left. by eapply splice1_subseteq.
  - split; simpl; [done..|].
    intros c Hc. left. by eapply splice1_subseteq.
Qed.

Lemma downgradeNode_Step node s : Step s (downgradeNode node s).2.
Proof.
  unfold downgradeNode. apply forEach_Step.
  intros. apply deconstructComponentInternal_Step.
Qed.

Lemma downgradeNodesInternal_Step nodes s :
  Step s (downgradeNodesInternal nodes s).2.
Proof.
  destruct nodes; simpl; try apply Step_refl;
    try apply downgradeNode_Step;
    apply forEach_Step; intros; apply downgradeNode_Step.
Qed.

(** ** Registration *)

Lemma registerInternal_normal config s :
  prototypeHasConfigProperty (Public.constructor config) = false →
  ∃ s', registerInternal config s = (Normal, s')
    ∧ registeredComponents_ s'
      = match findIndex (Public.classAsString config)
                (registeredComponents_ s) with
        | Some i => <[i := newConfig config s]> (registeredComponents_ s)
        | None => registeredComponents_ s ++ [newConfig config s]
        end
    ∧ callbackArrays s' = callbackArrays s ++ [[]]
    ∧ createdComponents_ s' = createdComponents_ s
    ∧ dataUpgraded s' = dataUpgraded s
    ∧ trace s' = trace s.
Proof.
  intros Hproto. unfold registerInternal, findRegisteredClass_replace.
  rewrite Hproto. cbn [registeredComponents_ setCallbackArrays].
  destruct (findIndex _ _); eexists; (split; [done|]); done.
Qed.

Lemma registerInternal_thrown config s :
  prototypeHasConfigProperty (Public.constructor config) = true →
  registerInternal config s
  = (Thrown ReservedPropertyDefined,
     setCallbackArrays (callbackArrays s ++ [[]]) s).
Proof. intros Hproto. unfold registerInternal. by rewrite Hproto. Qed.

Lemma registerInternal_names config s :
  prototypeHasConfigProperty (Public.constructor config) = false →
  registeredNames (registerInternal config s).2
  = if bool_decide (Public.classAsString config ∈ registeredNames s)
    then registeredNames s
    else registeredNames s ++ [Public.classAsString config].
Proof.
  intros Hproto.
  destruct (registerInternal_normal config s Hproto) as (s' & -> & Hr & _).
  unfold registeredNames. simpl. rewrite Hr.
  destruct (findIndex _ _) as [i|] eqn:Hi.
  - rewrite bool_decide_eq_true_2.
    + rewrite list_fmap_insert. apply list_insert_id.
      apply findIndex_Some in Hi as (c & Hl & Hn & _).
      rewrite list_lookup_fmap, Hl. simpl. by rewrite Hn.
    + destruct (decide (Public.classAsString config
                        ∈ className <$> registeredComponents_ s)); [done|].
      apply findIndex_None in n. congruence.
  - rewrite bool_decide_eq_false_2 by by apply findIndex_None.
    by rewrite fmap_app.
Qed.

Lemma NoDup_insert_fresh {A} (l : list A) i x :
  NoDup l → x ∉ l → NoDup (<[i := x]> l).
Proof.
  revert i. induction l as [|y l IH]; intros i; [done|].
  rewrite NoDup_cons, not_elem_of_cons. intros [Hy Hl] [Hxy Hx].
  destruct i as [|i]; simpl; apply NoDup_cons.
  - done.
  - split; [|by apply IH]. intros [j Hj]%list_elem_of_lookup_1.
    apply list_lookup_insert_Some in Hj
      as [(_ & Heq & _)|(_ & Hj%list_elem_of_lookup_2)]; [by subst|done].
Qed.

Lemma registerInternal_Inv config s :
  Inv s → Inv (registerInternal config s).2.
Proof.
  intros [Hn Ha Hc Ho].
  destruct (prototypeHasConfigProperty (Public.constructor config)) eqn:Hproto.
  - rewrite registerInternal_thrown by done. split; simpl.
    + done.
    + intros c Hin. rewrite length_app. specialize (Ha c Hin). lia.
    + intros c Hin. rewrite length_app.
      destruct (Hc c Hin) as (? & ? & ?). split_and!; [done..|lia].
    + done.
  - pose proof (registerInternal_names config s Hproto) as Hnames.
    destruct (registerInternal_normal config s Hproto)
      as (s' & Hs' & Hr & Harr & Hcr & Hd & _).
    rewrite Hs' in *. simpl in *.
    assert (callbacks (newConfig config s) ∉ callbacks <$> registeredComponents_ s)
      as Hfresh.
    { intros (c & Heq & Hin)%list_elem_of_fmap. specialize (Ha c Hin).
      simpl in Heq. lia. }
    split.
    + rewrite Hnames. case_bool_decide as Hin; [done|].
      apply NoDup_app. split_and!; [done| |apply NoDup_singleton].
      intros x Hx Hx'%list_elem_of_singleton. by subst x.
    + rewrite Hr, Harr, length_app. simpl.
      assert (callbacks (newConfig config s) < length (callbackArrays s) + 1)
        by (simpl; lia).
      intros c. destruct (findIndex _ _) as [i|].
      * intros [j Hj]%list_elem_of_lookup_1.
        apply list_lookup_insert_Some in Hj
          as [(_ & Hnew & _)|(_ & Hj%list_elem_of_lookup_2)]; [by subst c|].
        specialize (Ha c Hj). lia.
      * intros [Hin|Hnew%list_elem_of_singleton]%elem_of_app;
          [|by subst c].
        specialize (Ha c Hin). lia.
    + rewrite Hcr, Hd, Harr, Hnames, length_app. intros c Hin.
      destruct (Hc c Hin) as (? & ? & ?). split_and!; [done| |lia].
      case_bool_decide; [done|]. apply elem_of_app. by left.
    + rewrite Hr. destruct (findIndex _ _) as [i|].
      * rewrite list_fmap_insert. by apply NoDup_insert_fresh.
      * rewrite fmap_app. apply NoDup_app.
        split_and!; [done| |apply NoDup_singleton].
        intros x Hx Hx'%list_elem_of_singleton. by subst x.
Qed.

Lemma registerUpgradedCallbackInternal_Inv jsClass callback s :
  Inv s → Inv (registerUpgradedCallbackInternal jsClass callback s).2.
Proof.
  intros [Hn Ha Hc Ho]. unfold registerUpgradedCallbackInternal.
  destruct (findRegisteredClass_ jsClass s); [|done].
  split; simpl; [done| | |done]; rewrite length_alter; done.
Qed.

Lemma initialState_Inv attributes : Inv (initialState attributes).
Proof.
  split; simpl.
  - apply NoDup_nil_2.
  - intros c Hc. by apply elem_of_nil in Hc.
  - intros c Hc. by apply elem_of_nil in Hc.
  - apply NoDup_nil_2.
Qed.

Lemma call_Inv c s : Inv s → Inv (call c s).2.
Proof.
  intros HInv. destruct c; simpl.
  - eapply Step_Inv, upgradeDomInternal_Step; done.
  - eapply Step_Inv, upgradeElementInternal_Step; done.
  - eapply Step_Inv, upgradeElementsInternal_Step; done.
  - eapply Step_Inv, upgradeAllRegisteredInternal_Step; done.
  - by apply registerUpgradedCallbackInternal_Inv.
  - by apply registerInternal_Inv.
  - eapply Step_Inv, downgradeNodesInternal_Step; done.
Qed.

Lemma reachable_Inv s : reachable s → Inv s.
Proof.
  induction 1 as [attributes|s c _ IH].
  - apply initialState_Inv.
  - by apply call_Inv.
Qed.

Lemma reachable_run calls s : reachable s → reachable (run calls s).
Proof.
  revert s. induction calls as [|c calls IH]; intros s Hs; [done|].
  apply IH. by constructor.
Qed.

(** * The claims *)

(** C1.  In every state the public functions reach (so after every sequence
    of [register] calls) no two descriptors have the same type name; and
    registering a type name that is already registered, at position [i],
    overwrites the descriptor at position [i]: the collection keeps its
    length and its names, the descriptor now at [i] is the one built from
    the registration (its constructor, its name, its marker class and its
    [widget] flag, [true] when the registration has none), and it holds a
    new, empty array of callbacks, which is not the array of any descriptor
    registered before. *)
Theorem register_unique_replaces_in_place s config i :
  reachable s →
  NoDup (registeredNames s)
  ∧ (prototypeHasConfigProperty (Public.constructor config) = false →
     registeredNames s !! i = Some (Public.classAsString config) →
     ∃ new s',
       registerInternal config s = (Normal, s')
       ∧ registeredComponents_ s' = <[i := new]> (registeredComponents_ s)
       ∧ length (registeredComponents_ s') = length (registeredComponents_ s)
       ∧ registeredNames s' = registeredNames s
       ∧ NoDup (registeredNames s')
       ∧ className new = Public.classAsString config
       ∧ callbackArrays s' !! callbacks new = Some []
       ∧ (∀ old, old ∈ registeredComponents_ s →
                 callbacks old ≠ callbacks new)
       ∧ classConstructor new = Public.constructor config
       ∧ cssClass new = Public.cssClass config
       ∧ widget new = match Public.widget config with
                      | None => WidgetBool true
                      | Some flag => flag
                      end
       ∧ registeredComponents_ s' !! i = Some new).
Proof.
  intros Hreach. pose proof (reachable_Inv s Hreach) as [Hn Ha Hc _].
  split; [done|]. intros Hproto Hi.
  unfold registeredNames in Hi. rewrite list_lookup_fmap in Hi.
  destruct (registeredComponents_ s !! i) as [c|] eqn:Hl; [|done].
  injection Hi as Hname.
  pose proof (findIndex_NoDup _ i c Hn Hl) as Hfind. rewrite Hname in Hfind.
  destruct (registerInternal_normal config s Hproto)
    as (s' & Hs' & Hr & Harr & _).
  rewrite Hfind in Hr.
  assert (registeredNames s' = registeredNames s) as Hnames.
  { unfold registeredNames. rewrite Hr, list_fmap_insert.
    apply list_insert_id. rewrite list_lookup_fmap, Hl. simpl.
    by rewrite Hname. }
  exists (newConfig config s), s'. split_and!; try done.
  - by rewrite Hr, length_insert.
  - by rewrite Hnames.
  - rewrite Harr. simpl. by rewrite list_lookup_middle.
  - intros old Hold. specialize (Ha old Hold). simpl. lia.
  - rewrite Hr. apply list_lookup_insert_eq.
    by apply lookup_lt_Some in Hl.
Qed.

Lemma register_unique_replaces_in_place_witness :
  reachable Scenario.registered
  ∧ registeredNames Scenario.registered !! 0 = Some "Widget"
  ∧ ∃ new s',
      registerInternal Scenario.otherWidgetConfig Scenario.registered
      = (Normal, s')
      ∧ registeredComponents_ s'
        = <[0 := new]> (registeredComponents_ Scenario.registered)
      ∧ cssClass new = "w2-js"
      ∧ callbackArrays s' !! callbacks new = Some [].
Proof.
  assert (reachable Scenario.registered) as Hreach
    by apply reachable_run, reachable_initial.
  split; [exact Hreach|]. split; [reflexivity|].
  destruct (register_unique_replaces_in_place
              Scenario.registered Scenario.otherWidgetConfig 0 Hreach)
    as [_ Hreplace].
  destruct (Hreplace eq_refl eq_refl)
    as (new & s' & Hs' & Hr & _ & _ & _ & _ & Hcb & _).
  exists new, s'. split_and!; try done.
  vm_compute in Hs'. injection Hs' as <-.
  vm_compute in Hr. by injection Hr as <-.
Defined.

(** C7.  When the prototype of the constructor has the reserved property
    [mdlComponentConfigInternal_], [register] throws and the descriptor
    collection is as before: nothing is appended and nothing replaced, and
    the callbacks of the registered descriptors, the created components,
    the attributes and the trace are untouched. *)
Theorem register_reserved_property_throws config s :
  prototypeHasConfigProperty (Public.constructor config) = true →
  ∃ s',
    registerInternal config s = (Thrown ReservedPropertyDefined, s')
    ∧ registeredComponents_ s' = registeredComponents_ s
    ∧ (∀ array, array < length (callbackArrays s) →
                callbackArrays s' !! array = callbackArrays s !! array)
    ∧ createdComponents_ s' = createdComponents_ s
    ∧ dataUpgraded s' = dataUpgraded s
    ∧ trace s' = trace s.
Proof.
  intros Hproto. rewrite registerInternal_thrown by done.
  eexists. split; [done|]. simpl. split_and!; try done.
  intros array Harray. by rewrite lookup_app_l.
Qed.

Lemma register_reserved_property_throws_witness :
  prototypeHasConfigProperty
    (Public.constructor Scenario.collidingConfig) = true
  ∧ ∃ s',
      registerInternal Scenario.collidingConfig Scenario.registered
      = (Thrown ReservedPropertyDefined, s')
      ∧ registeredComponents_ s' = registeredComponents_ Scenario.registered.
Proof.
  split; [reflexivity|].
  destruct (register_reserved_property_throws
              Scenario.collidingConfig Scenario.registered eq_refl)
    as (s' & Hs' & Hr & _).
  by exists s'.
Defined.

(** C5.  When a listener cancels [mdl-componentupgrading], the upgrade of
    the element returns without error and without effect: the attribute,
    the created components, the descriptors and their callbacks and the
    properties of the element are as before, and the trace holds nothing
    but the cancelled event: no constructor ran, no callback ran and no
    [mdl-componentupgraded] was sent. *)
Theorem cancelled_upgrade_has_no_effect element optJsClass s :
  instanceofElement element = true →
  upgradingPrevented element = true →
  ∃ s',
    upgradeElementInternal element optJsClass s = (Normal, s')
    ∧ dataUpgraded s' = dataUpgraded s
    ∧ createdComponents_ s' = createdComponents_ s
    ∧ nextComponentId s' = nextComponentId s
    ∧ registeredComponents_ s' = registeredComponents_ s
    ∧ callbackArrays s' = callbackArrays s
    ∧ widgetProperty s' = widgetProperty s
    ∧ trace s'
      = trace s ++ [Dispatched "mdl-componentupgrading" (nodeId element)].
Proof.
  intros Helement Hprevented. unfold upgradeElementInternal.
  rewrite Helement, Hprevented. simpl. eexists. split; [done|]. done.
Qed.

Lemma cancelled_upgrade_has_no_effect_witness :
  instanceofElement Scenario.guardedNode = true
  ∧ upgradingPrevented Scenario.guardedNode = true
  ∧ ∃ s',
      upgradeElementInternal Scenario.guardedNode None Scenario.registered
      = (Normal, s')
      ∧ dataUpgraded s' = dataUpgraded Scenario.registered
      ∧ createdComponents_ s' = createdComponents_ Scenario.registered.
Proof.
  split; [reflexivity|]. split; [reflexivity|].
  destruct (cancelled_upgrade_has_no_effect
              Scenario.guardedNode None Scenario.registered eq_refl eq_refl)
    as (s' & Hs' & Hd & Hc & _).
  by exists s'.
Defined.




(** ** Downgrading in a marked state *)









(** ** DOM-wide upgrades *)





(** ** Bulk upgrades *)




(** *** The order *)








(** *** What the order depends on *)







(** *** The traversal follows the order *)






(** ** Upgrading for a given type *)

Lemma filter_none {A} (P : A → Prop) `{!∀ x, Decision (P x)} (l : list A) :
  (∀ x, x ∈ l → ¬ P x) → filter P l = [].
Proof.
  induction l as [|x l IH]; intros Hl; [done|].
  rewrite filter_cons_False by (apply Hl; by left).
  apply IH. intros y Hy. apply Hl. by right.
Qed.

Lemma isElementUpgraded_spec s element jsClass :
  isElementUpgraded_ s element jsClass = true
  ↔ jsClass ∈ getUpgradedListOfElement_ s element.
Proof.
  unfold isElementUpgraded_. rewrite negb_true_iff, Z.eqb_neq.
  rewrite indexOf_none. split.
  - intros Hex.
    destruct (decide (jsClass ∈ getUpgradedListOfElement_ s element));
      [done|].
    exfalso. apply Hex. intros x Hx. simpl.
    apply bool_decide_eq_false_2. by intros ->.
  - intros Hin Hall. specialize (Hall jsClass Hin). simpl in Hall.
    by rewrite bool_decide_eq_true_2 in Hall.
Qed.

Lemma isElementUpgraded_false s element jsClass :
  isElementUpgraded_ s element jsClass = false
  ↔ jsClass ∉ getUpgradedListOfElement_ s element.
Proof.
  rewrite <- isElementUpgraded_spec.
  by destruct (isElementUpgraded_ s element jsClass).
Qed.








(** ** Scenario A *)

Section ScenarioA.

Variables (attributes : gmap nat string) (ctor : Constructor)
  (flag : option WidgetFlag) (i : nat) (classes : list string).

Hypothesis ctor_plain : prototypeHasConfigProperty ctor = false.
Hypothesis ctor_returns :
  constructorThrows ctor (Scenario.leaf i classes) = false.
Hypothesis marker_class : "w-js" ∈ classes.
Hypothesis no_attribute : attributes !! i = None.

Local Abbreviation element := (Scenario.leaf i classes).
Local Abbreviation registeredClass :=
  (newConfig (Scenario.widgetWith ctor flag) (initialState attributes)).
Local Abbreviation s0 :=
  (setRegistered [registeredClass]
     (setCallbackArrays [[]] (initialState attributes))).
Local Abbreviation finished r :=
  (r.1 = Normal
   ∧ registeredComponents_ r.2 = [registeredClass]
   ∧ dataUpgraded r.2 !! i = Some ",Widget"
   ∧ createdComponents_ r.2
     = [{| componentId := 0; element_ := i;
           mdlComponentConfigInternal_ := registeredClass |}]).

Lemma scenarioA_registered :
  registerInternal (Scenario.widgetWith ctor flag) (initialState attributes)
  = (Normal, s0).
Proof.
  unfold registerInternal. cbn [Public.constructor Scenario.widgetWith].
  by rewrite ctor_plain.
Qed.

Lemma scenarioA_fresh s :
  dataUpgraded s = attributes → isElementUpgraded_ s i "Widget" = false.
Proof.
  intros Hs. unfold isElementUpgraded_, getUpgradedListOfElement_.
  by rewrite Hs, no_attribute.
Qed.

Lemma scenarioA_upgradeLoop s :
  registeredComponents_ s = [registeredClass] →
  createdComponents_ s = [] →
  nextComponentId s = 0 →
  finished (upgradeLoop element [Some registeredClass] [""] s).
Proof.
  intros Hr Hc Hn. cbn [upgradeLoop]. unfold andThen.
  destruct (upgradeFor_normal registeredClass element
              ([""] ++ [className registeredClass]) s ctor_returns)
    as (s' & -> & Hr' & _ & Hd' & Hc' & _).
  split_and!; simpl.
  - done.
  - by rewrite Hr'.
  - by rewrite Hd', lookup_insert_eq.
  - by rewrite Hc', Hc, Hn.
Qed.

Lemma scenarioA_typed :
  finished (upgradeElementInternal element (Some "Widget") s0).
Proof.
  unfold upgradeElementInternal, Scenario.leaf.
  cbn [instanceofElement nodeKind negb upgradingPrevented Js.falsy nodeId].
  rewrite bool_decide_eq_false_2 by done.
  rewrite scenarioA_fresh by done.
  unfold getUpgradedListOfElement_.
  cbn [dataUpgraded dispatchEvent record setRegistered setCallbackArrays
       initialState].
  rewrite no_attribute. by apply scenarioA_upgradeLoop.
Qed.

Lemma scenarioA_untyped :
  finished (upgradeElementInternal element None s0).
Proof.
  unfold upgradeElementInternal, Scenario.leaf.
  cbn [instanceofElement nodeKind negb upgradingPrevented nodeId].
  unfold scanRegistered.
  cbn [registeredComponents_ dispatchEvent record setRegistered fold_left].
  unfold classList_contains.
  cbn [classList cssClass newConfig Scenario.widgetWith Public.cssClass].
  rewrite bool_decide_eq_true_2 by done.
  cbn [className Public.classAsString nodeId].
  rewrite scenarioA_fresh by done.
  unfold getUpgradedListOfElement_.
  cbn [dataUpgraded dispatchEvent record setRegistered setCallbackArrays
       initialState].
  rewrite no_attribute. by apply scenarioA_upgradeLoop.
Qed.

Lemma scenarioA_query :
  querySelectorAll [element] ".w-js" = Some [element].
Proof.
  unfold Scenario.leaf.
  cbn [querySelectorAll fmap list_fmap concat descendantsOrSelf app].
  by rewrite filter_cons_True.
Qed.

Lemma scenarioA_bulk bulk :
  bulk ∈ Scenario.bulkUpgrades element → finished (call bulk s0).
Proof.
  assert (∀ r : Completion * State,
            finished r →
            finished
              match r with
              | (Normal, s') => ret s'
              | (Thrown e, s') => (Thrown e, s')
              end) as Hret.
  { intros [[|e] s'] Hr; [done|]. by destruct Hr as [? _]. }
  assert (finished
            (upgradeDomFor [element] (Some "Widget") (Some "w-js") s0))
    as Hdom.
  { unfold upgradeDomFor. change ("." +:+ Js.toString (Some "w-js"))
      with ".w-js". rewrite scenarioA_query. cbn [forEach]. unfold andThen.
    apply Hret, scenarioA_typed. }
  assert (finished (upgradeEntry element s0)) as Hentry.
  { rewrite upgradeEntry_unfold.
    change (instanceofHTMLElement element) with true. cbn iota.
    rewrite afterConstructors_leaf. apply Hret, scenarioA_untyped. }
  unfold Scenario.bulkUpgrades. rewrite !elem_of_cons.
  intros [->|[->|[->|[->|[]%elem_of_nil]]]].
  - cbn [call]. unfold upgradeAllRegisteredInternal.
    cbn [registeredComponents_ setRegistered forEach]. unfold andThen.
    apply Hret. apply Hdom.
  - cbn [call upgradeDomInternal registeredComponents_ setRegistered
         forEach]. unfold andThen.
    apply Hret. apply Hdom.
  - cbn [call]. unfold upgradeElementsInternal.
    cbn [toArray instanceofElement nodeKind forEach Scenario.leaf].
    unfold andThen. apply Hret, Hentry.
  - cbn [call]. unfold upgradeElementsInternal.
    cbn [toArray forEach]. unfold andThen. apply Hret, Hentry.
Qed.

End ScenarioA.

(** C3, as amended.  Register "Widget" with the marker class "w-js" on a
    fresh handler, for any constructor that returns and any [widget] flag;
    take a document that is one HTML element with that class and without
    [data-upgraded] attribute; run any bulk upgrade ([upgradeAllRegistered],
    [upgradeDom] without arguments, [upgradeElements] of the element or of
    an array with it).  Then the attribute of the element is ",Widget" (the
    list read from the missing attribute is the one empty string, with
    which the element counts as upgraded for no type of non-empty name, and
    the name is pushed behind it) and there is exactly one created
    component, whose element is that node and whose type is "Widget". *)
Theorem scenario_A_marks_and_creates attributes ctor flag i classes bulk :
  prototypeHasConfigProperty ctor = false →
  constructorThrows ctor (Scenario.leaf i classes) = false →
  "w-js" ∈ classes →
  attributes !! i = None →
  bulk ∈ Scenario.bulkUpgrades (Scenario.leaf i classes) →
  getUpgradedListOfElement_ (initialState attributes) i = [""]
  ∧ (∀ jsClass, jsClass ≠ "" →
                isElementUpgraded_ (initialState attributes) i jsClass = false)
  ∧ ∃ s c,
      (registerInternal (Scenario.widgetWith ctor flag) ;; call bulk)
        (initialState attributes) = (Normal, s)
      ∧ dataUpgraded s !! i = Some ",Widget"
      ∧ createdComponents_ s = [c]
      ∧ element_ c = i
      ∧ className (mdlComponentConfigInternal_ c) = "Widget".
Proof.
  intros Hplain Hreturns Hclass Hattribute Hbulk.
  assert (getUpgradedListOfElement_ (initialState attributes) i = [""])
    as Hlist.
  { unfold getUpgradedListOfElement_. simpl. by rewrite Hattribute. }
  split; [done|]. split.
  { intros jsClass Hname. apply isElementUpgraded_false. rewrite Hlist.
    by intros ->%list_elem_of_singleton. }
  unfold andThen.
  rewrite scenarioA_registered by done.
  destruct (scenarioA_bulk attributes ctor flag i classes
              Hreturns Hclass Hattribute bulk Hbulk)
    as (Hnormal & _ & Hd & Hc).
  destruct (call bulk _) as [completion s]. simpl in *. subst completion.
  eexists s, _. split_and!; [done|done|exact Hc|done|done].
Qed.

Lemma scenario_A_marks_and_creates_witness :
  ∃ s c,
    (registerInternal Scenario.widgetConfig ;;
     upgradeAllRegisteredInternal [Scenario.widgetNode])
      (initialState ∅) = (Normal, s)
    ∧ dataUpgraded s !! 1 = Some ",Widget"
    ∧ createdComponents_ s = [c]
    ∧ element_ c = 1.
Proof.
  destruct (scenario_A_marks_and_creates ∅ (Scenario.plainConstructor "Widget")
              None 1 ["w-js"] (UpgradeAllRegistered [Scenario.widgetNode]))
    as (_ & _ & s & c & Hs & Hd & Hc & He & _).
  - reflexivity.
  - reflexivity.
  - by left.
  - reflexivity.
  - by left.
  - by exists s, c.
Defined.

(** C3 as stated fails: after each of the bulk upgrades the attribute is
    not "Widget". *)
Lemma scenario_A_attribute_is_not_the_name :
  Forall
    (fun bulk =>
       let r := (registerInternal Scenario.widgetConfig ;; call bulk)
                  (initialState ∅) in
       r.1 = Normal ∧ dataUpgraded r.2 !! 1 ≠ Some "Widget")
    (Scenario.bulkUpgrades Scenario.widgetNode).
Proof.
  repeat (constructor; [split; [reflexivity|vm_compute; discriminate]|]).
  constructor.
Qed.

(** ** Downgrading *)

(** A node without created component is left alone. *)
Lemma downgradeNode_without_component node s :
  (∀ c, c ∈ createdComponents_ s → element_ c ≠ nodeId node) →
  downgradeNode node s = (Normal, s).
Proof.
  intros Hnone. unfold downgradeNode. by rewrite filter_none.
Qed.

(** The entry that [deconstructComponentInternal] removes from the list is
    the last one, whatever the type of the component: the descriptor has
    no property [classAsString], [indexOf(undefined)] is [-1], and
    [splice(-1, 1)] removes the last entry. *)
Lemma deconstructComponentInternal_removes_last component dataUpgraded0 s :
  dataUpgraded s !! element_ component = Some dataUpgraded0 →
  ∃ s',
    deconstructComponentInternal component s = (Normal, s')
    ∧ dataUpgraded s' !! element_ component
      = Some (Js.join (removelast (Js.split dataUpgraded0))).
Proof.
  intros Hattribute. unfold deconstructComponentInternal.
  cbn [dataUpgraded setCreated]. rewrite Hattribute.
  eexists. split; [done|].
  cbn [dataUpgraded dispatchEvent record setAttribute].
  rewrite lookup_insert_eq. do 2 f_equal.
  change (getProperty (mdlComponentConfigInternal_ component) "classAsString")
    with Js.Undefined.
  assert (Js.indexOf (Js.strictEquals Js.Undefined) (Js.split dataUpgraded0)
          = (-1)%Z) as -> by by apply indexOf_none.
  unfold Js.splice1. pose proof (split_nonempty dataUpgraded0) as Hne.
  induction (Js.split dataUpgraded0) as [|x l IH] using rev_ind; [done|].
  rewrite removelast_last, length_app. simpl.
  replace (Z.to_nat _) with (length l) by lia.
  clear. induction l as [|y l IH]; [done|]. simpl. by rewrite IH.
Qed.

(** ** Which components a downgrade removes *)

Lemma preserves_andThen P (c1 c2 : Cmd) :
  preserves P c1 → preserves P c2 → preserves P (c1 ;; c2).
Proof.
  intros H1 H2 s Hs. unfold andThen. specialize (H1 s Hs).
  destruct (c1 s) as [[|e] s']; [by apply H2|done].
Qed.

Lemma preserves_forEach {A} P (f : A → Cmd) l :
  (∀ x, x ∈ l → preserves P (f x)) → preserves P (forEach f l).
Proof.
  induction l as [|x l IH]; intros Hf; [by intros s|].
  apply preserves_andThen; [apply Hf; by left|].
  apply IH. intros y Hy. apply Hf. by right.
Qed.

Lemma upgradeFor_freshIds registeredClass element upgradedList :
  preserves freshIds (upgradeFor registeredClass element upgradedList).
Proof.
  intros s [Hnd Hlt].
  destruct (constructorThrows (classConstructor registeredClass) element)
    eqn:Hctor.
  - destruct (upgradeFor_thrown _ _ upgradedList s Hctor)
      as (s' & -> & _ & _ & _ & Hc & Hn).
    split; simpl; rewrite Hc; [done|]. by rewrite Hn.
  - destruct (upgradeFor_normal _ _ upgradedList s Hctor)
      as (s' & -> & _ & _ & _ & Hc & Hn).
    split; simpl; rewrite Hc.
    + rewrite fmap_app. apply NoDup_app.
      split_and!; [done| |apply NoDup_singleton].
      intros x (c & -> & Hin)%list_elem_of_fmap Hx%list_elem_of_singleton.
      specialize (Hlt c Hin). simpl in Hx. lia.
    + rewrite Hn. intros c [Hin|Hnew%list_elem_of_singleton]%elem_of_app.
      * specialize (Hlt c Hin). lia.
      * subst c. simpl. lia.
Qed.

Lemma upgradeElementInternal_freshIds element optJsClass :
  preserves freshIds (upgradeElementInternal element optJsClass).
Proof.
  assert (∀ classes upgradedList,
            preserves freshIds (upgradeLoop element classes upgradedList))
    as Hloop.
  { induction classes as [|[c|] classes IH]; intros upgradedList;
      [by intros s|..|by intros s].
    apply preserves_andThen; [apply upgradeFor_freshIds|apply IH]. }
  intros s Hs. unfold upgradeElementInternal.
  destruct (instanceofElement element); [|done]. simpl.
  destruct (upgradingPrevented element); [done|]. by apply Hloop.
Qed.

Lemma upgradeEntry_freshIds element : preserves freshIds (upgradeEntry element).
Proof.
  induction element as [element IH] using upgradeEntry_ind.
  intros s Hs. rewrite upgradeEntry_unfold.
  destruct (instanceofHTMLElement _); [|done].
  pose proof (upgradeElementInternal_freshIds element None s Hs) as Hfresh.
  destruct (upgradeElementInternal element None s) as [[|err] s']; [|done].
  apply preserves_forEach; [|done]. intros child Hchild. by eapply IH.
Qed.

Lemma upgradeDomFor_freshIds document optJsClass optCssClass :
  preserves freshIds (upgradeDomFor document optJsClass optCssClass).
Proof.
  intros s Hs. unfold upgradeDomFor.
  destruct (querySelectorAll _ _); [|done].
  apply preserves_forEach; [|done].
  intros. apply upgradeElementInternal_freshIds.
Qed.

Lemma upgradeDomInternal_freshIds document optJsClass optCssClass :
  preserves freshIds (upgradeDomInternal document optJsClass optCssClass).
Proof.
  intros s Hs. unfold upgradeDomInternal.
  destruct optJsClass, optCssClass;
    try by apply upgradeDomFor_freshIds.
  apply preserves_forEach; [|done]. intros. apply upgradeDomFor_freshIds.
Qed.

Lemma deconstructComponentInternal_freshIds component :
  preserves freshIds (deconstructComponentInternal component).
Proof.
  intros s [Hnd Hlt]. unfold deconstructComponentInternal.
  cbn [dataUpgraded setCreated].
  assert (NoDup (componentId <$> Js.splice1
                   (Js.indexOf (sameComponent component)
                      (createdComponents_ s)) (createdComponents_ s))) as Hnd'.
  { unfold Js.splice1. rewrite list_fmap_delete.
    eapply sublist_NoDup; [done|apply sublist_delete]. }
  destruct (dataUpgraded s !! element_ component); split; simpl; try done;
    intros c Hc%splice1_subseteq; by apply Hlt.
Qed.

Lemma downgradeNode_freshIds node : preserves freshIds (downgradeNode node).
Proof.
  intros s Hs. unfold downgradeNode.
  apply preserves_forEach; [|done].
  intros. apply deconstructComponentInternal_freshIds.
Qed.

Lemma call_freshIds c : preserves freshIds (call c).
Proof.
  destruct c; simpl.
  - apply upgradeDomInternal_freshIds.
  - apply upgradeElementInternal_freshIds.
  - apply preserves_forEach. intros. apply upgradeEntry_freshIds.
  - intros s Hs. unfold upgradeAllRegisteredInternal.
    apply preserves_forEach; [|done].
    intros. apply upgradeDomInternal_freshIds.
  - intros s Hs. unfold registerUpgradedCallbackInternal.
    by destruct (findRegisteredClass_ jsClass s).
  - intros s Hs. unfold registerInternal, findRegisteredClass_replace.
    destruct (prototypeHasConfigProperty _); [done|].
    cbn [registeredComponents_ setCallbackArrays].
    by destruct (findIndex _ _).
  - destruct nodes; simpl; try (by intros s);
      try apply downgradeNode_freshIds;
      apply preserves_forEach; intros; apply downgradeNode_freshIds.
Qed.

Lemma reachable_freshIds s : reachable s → freshIds s.
Proof.
  induction 1 as [attributes|s c _ IH].
  - split; simpl; [apply NoDup_nil_2|]. intros c Hc. by apply elem_of_nil in Hc.
  - by apply call_freshIds.
Qed.

(** Among distinct objects, [indexOf] finds the component itself and
    [splice] removes it and nothing else. *)
Lemma filter_all {A} (P : A → Prop) `{!∀ x, Decision (P x)} (l : list A) :
  (∀ x, x ∈ l → P x) → filter P l = l.
Proof.
  induction l as [|x l IH]; intros Hl; [done|].
  rewrite filter_cons_True by (apply Hl; by left).
  f_equal. apply IH. intros y Hy. apply Hl. by right.
Qed.

Lemma indexOf_component_found component l i :
  NoDup (componentId <$> l) → component ∈ l →
  ∃ n, Js.indexOf_from (sameComponent component) l i = (i + Z.of_nat n)%Z
       ∧ n < length l
       ∧ delete n l
         = filter (fun c => componentId c ≠ componentId component) l.
Proof.
  revert i. induction l as [|y l IH]; intros i Hnd Hin.
  { by apply elem_of_nil in Hin. }
  rewrite fmap_cons, NoDup_cons in Hnd. destruct Hnd as [Hy Hnd].
  cbn [Js.indexOf_from]. unfold sameComponent at 1. case_bool_decide as Hid.
  - exists 0. split_and!; [lia|simpl; lia|]. simpl.
    rewrite filter_cons_False by (intros Hne; by apply Hne).
    symmetry. apply filter_all.
    intros c Hc Heq. apply Hy. rewrite <- Hid, <- Heq.
    by apply list_elem_of_fmap_2.
  - apply elem_of_cons in Hin as [->|Hin]; [done|].
    destruct (IH (i + 1)%Z Hnd Hin) as (n & Hn & Hlt & Hdel).
    exists (S n). split_and!; [rewrite Hn; lia|simpl; lia|]. simpl.
    rewrite filter_cons_True by (intros Heq; by apply Hid).
    by rewrite Hdel.
Qed.

Lemma splice1_indexOf_component component l :
  NoDup (componentId <$> l) → component ∈ l →
  Js.splice1 (Js.indexOf (sameComponent component) l) l
  = filter (fun c => componentId c ≠ componentId component) l.
Proof.
  intros Hnd Hin. unfold Js.indexOf.
  destruct (indexOf_component_found component l 0%Z Hnd Hin)
    as (n & -> & Hn & <-).
  unfold Js.splice1.
  assert ((0 + Z.of_nat n <? 0)%Z = false) as -> by (apply Z.ltb_ge; lia).
  f_equal. lia.
Qed.

Lemma filter_ext_in {A} (P Q : A → Prop)
    `{!∀ x, Decision (P x)} `{!∀ x, Decision (Q x)} (l : list A) :
  (∀ x, x ∈ l → P x ↔ Q x) → filter P l = filter Q l.
Proof.
  induction l as [|x l IH]; intros Hl; [done|].
  rewrite !filter_cons.
  rewrite IH by (intros y Hy; apply Hl; by right).
  destruct (decide (P x)) as [HP|HP], (decide (Q x)) as [HQ|HQ]; try done;
    exfalso; apply (Hl x ltac:(by left)) in HP || apply (Hl x ltac:(by left)) in HQ;
    done.
Qed.

Lemma NoDup_fmap_eq {A B} (f : A → B) (l : list A) x y :
  NoDup (f <$> l) → x ∈ l → y ∈ l → f x = f y → x = y.
Proof.
  intros Hnd [i Hi]%list_elem_of_lookup_1 [j Hj]%list_elem_of_lookup_1 Heq.
  assert (i = j) as ->.
  { eapply (NoDup_lookup _ _ _ _ Hnd); rewrite list_lookup_fmap.
    - by rewrite Hi.
    - by rewrite Hj, Heq. }
  congruence.
Qed.

Lemma forEach_deconstruct_created l s :
  NoDup (componentId <$> createdComponents_ s) →
  NoDup (componentId <$> l) →
  (∀ c, c ∈ l → c ∈ createdComponents_ s
                ∧ is_Some (dataUpgraded s !! element_ c)) →
  ∃ s',
    forEach deconstructComponentInternal l s = (Normal, s')
    ∧ createdComponents_ s'
      = filter (fun c => componentId c ∉ componentId <$> l)
          (createdComponents_ s).
Proof.
  revert s. induction l as [|c l IH]; intros s Hnd Hl Hin.
  { exists s. split; [done|]. symmetry. apply filter_all.
    intros x _ Hx. by apply elem_of_nil in Hx. }
  rewrite fmap_cons, NoDup_cons in Hl. destruct Hl as [Hc Hl].
  destruct (Hin c ltac:(by left)) as [Hcin [a Ha]].
  cbn [forEach]. unfold andThen.
  pose proof (deconstructComponentInternal_Step c s) as Hstep.
  unfold deconstructComponentInternal in *. cbn [dataUpgraded setCreated] in *.
  rewrite Ha in *. rewrite splice1_indexOf_component in * by done.
  set (s1 := dispatchEvent _ _ _) in *. simpl in Hstep.
  destruct (IH s1) as (s' & -> & Hs').
  - simpl. eapply sublist_NoDup; [exact Hnd|].
    apply fmap_sublist, sublist_filter.
  - done.
  - intros c' Hc'. destruct (Hin c' ltac:(by right)) as [Hc'in Hsome].
    split; [|by apply (step_attributes _ _ Hstep)].
    simpl. apply list_elem_of_filter. split; [|done].
    intros Heq. apply Hc. rewrite <- Heq. by apply list_elem_of_fmap_2.
  - exists s'. split; [done|]. rewrite Hs'. simpl.
    rewrite list_filter_filter. apply filter_ext_in. intros x Hx.
    rewrite not_elem_of_cons. tauto.
Qed.

(** In a reachable state, downgrading a node completes and removes from
    [createdComponents_] exactly the components of that node. *)
Lemma downgradeNode_removes_components node s :
  reachable s →
  ∃ s',
    downgradeNode node s = (Normal, s')
    ∧ createdComponents_ s'
      = filter (fun c => element_ c ≠ nodeId node) (createdComponents_ s).
Proof.
  intros Hreach.
  pose proof (reachable_freshIds s Hreach) as [Hnd _].
  pose proof (reachable_Inv s Hreach) as [_ _ Hc _].
  unfold downgradeNode.
  set (l := filter (fun item => element_ item = nodeId node)
              (createdComponents_ s)).
  destruct (forEach_deconstruct_created l s) as (s' & Hs' & Hcreated).
  - done.
  - eapply sublist_NoDup; [exact Hnd|]. apply fmap_sublist, sublist_filter.
  - intros c [_ Hin]%list_elem_of_filter. split; [done|].
    by destruct (Hc c Hin) as (? & _).
  - exists s'. split; [done|]. rewrite Hcreated.
    apply filter_ext_in. intros c Hin. split.
    + intros Hid Helement. apply Hid. apply list_elem_of_fmap_2.
      by apply list_elem_of_filter.
    + intros Helement (c' & Hid & [Hc' Hin']%list_elem_of_filter)%list_elem_of_fmap.
      apply Helement.
      by rewrite (NoDup_fmap_eq componentId _ c c' Hnd Hin Hin' Hid).
Qed.

(** Downgrading the same node again does nothing. *)
Lemma downgradeNode_twice node s :
  reachable s →
  downgradeNode node (downgradeNode node s).2
  = (Normal, (downgradeNode node s).2).
Proof.
  intros Hreach.
  destruct (downgradeNode_removes_components node s Hreach)
    as (s' & -> & Hcreated).
  apply downgradeNode_without_component. simpl. rewrite Hcreated.
  by intros c [? _]%list_elem_of_filter.
Qed.

(** C4: the code at the failing input.  An element carries the marker
    classes of the button and of the snackbar, and the snackbar constructor
    throws on it; the upgrade leaves the element marked for both types with
    one created component, the button.  Downgrading the element removes
    that component, and removes "MaterialSnackbar" from the attribute:
    the element stays marked as a button, and a later upgrade for
    "MaterialButton" does nothing. *)
Lemma downgrade_removes_last_name_not_own :
  let s0 := run [Register Scenario.buttonConfig;
                 Register Scenario.snackbarConfig]
              (initialState ∅) in
  let upgrade := upgradeElementInternal Scenario.buttonNode None s0 in
  let s := upgrade.2 in
  let r := downgradeNodesInternal (NodesSingle Scenario.buttonNode) s in
  let s' := run [UpgradeElement Scenario.buttonNode (Some "MaterialButton")]
              r.2 in
  upgrade.1 = Thrown (ConstructorError "MaterialSnackbar")
  ∧ dataUpgraded s !! 1 = Some ",MaterialButton,MaterialSnackbar"
  ∧ (fun c => (element_ c, className (mdlComponentConfigInternal_ c)))
      <$> createdComponents_ s = [(1, "MaterialButton")]
  ∧ r.1 = Normal
  ∧ createdComponents_ r.2 = []
  ∧ dataUpgraded r.2 !! 1 = Some ",MaterialButton"
  ∧ isElementUpgraded_ r.2 1 "MaterialButton" = true
  ∧ createdComponents_ s' = [].
Proof. vm_compute. split_and!; reflexivity. Qed.

(** * Further properties of the handler *)

(** ** Subscribing callbacks *)

Lemma callCallbacks_trace registeredClass element s :
  trace (callCallbacks registeredClass element s)
  = trace s
    ++ ((fun callback => CalledBack callback element)
          <$> subscribers s registeredClass).
Proof.
  unfold callCallbacks, subscribers.
  generalize (default [] (callbackArrays s !! callbacks registeredClass)).
  intros l. revert s. induction l as [|cb l IH]; intros s.
  - simpl. by rewrite app_nil_r.
  - cbn [fold_left]. rewrite IH. simpl. by rewrite <- app_assoc.
Qed.

Lemma different_descriptors_different_arrays s a b :
  Inv s → a ∈ registeredComponents_ s → b ∈ registeredComponents_ s →
  a ≠ b → callbacks a ≠ callbacks b.
Proof.
  intros [_ _ _ Ho] Ha Hb Hne Heq. apply Hne.
  by apply (NoDup_fmap_eq callbacks (registeredComponents_ s)).
Qed.

Lemma registerUpgradedCallbackInternal_spec s jsClass callback :
  reachable s →
  ∃ s',
    registerUpgradedCallbackInternal jsClass callback s = (Normal, s')
    ∧ registeredComponents_ s' = registeredComponents_ s
    ∧ createdComponents_ s' = createdComponents_ s
    ∧ dataUpgraded s' = dataUpgraded s
    ∧ trace s' = trace s
    ∧ (∀ c, c ∈ registeredComponents_ s →
            subscribers s' c
            = if bool_decide (className c = jsClass)
              then subscribers s c ++ [callback]
              else subscribers s c)
    ∧ (jsClass ∉ registeredNames s → s' = s).
Proof.
  intros Hreach. pose proof (reachable_Inv s Hreach) as HInv.
  unfold registerUpgradedCallbackInternal.
  destruct (findRegisteredClass_ jsClass s) as [regClass|] eqn:Hfind.
  - destruct (find_Some _ _ _ Hfind) as [Hin Hname].
    eexists. split; [done|]. simpl. split_and!; try done.
    + intros c Hc. unfold subscribers. simpl. case_bool_decide as Hcn.
      * assert (c = regClass) as ->.
        { rewrite <- Hcn in Hfind.
          rewrite (find_NoDup s c (inv_names _ HInv) Hc) in Hfind.
          congruence. }
        rewrite list_lookup_alter_eq.
        pose proof (inv_arrays _ HInv regClass Hin) as Hlt.
        apply lookup_lt_is_Some_2 in Hlt as [cbs Hcbs]. by rewrite Hcbs.
      * rewrite list_lookup_alter_ne; [done|].
        apply (different_descriptors_different_arrays s); try done.
        intros ->. done.
    + intros Hn. apply find_None in Hn. congruence.
  - exists s. split_and!; try done.
    intros c Hc. rewrite bool_decide_eq_false_2; [done|].
    intros Hcn. apply find_None in Hfind. apply Hfind. rewrite <- Hcn.
    by apply list_elem_of_fmap_2.
Qed.

(** [registerUpgradedCallback] appends the callback to the list of the
    named descriptor and to no other list; it changes nothing else; and for
    a name that is not registered it changes nothing at all. *)
Theorem registerUpgradedCallback_appends s jsClass callback :
  reachable s →
  ∃ s',
    registerUpgradedCallbackInternal jsClass callback s = (Normal, s')
    ∧ registeredComponents_ s' = registeredComponents_ s
    ∧ createdComponents_ s' = createdComponents_ s
    ∧ dataUpgraded s' = dataUpgraded s
    ∧ trace s' = trace s
    ∧ (∀ c, c ∈ registeredComponents_ s →
            subscribers s' c
            = if bool_decide (className c = jsClass)
              then subscribers s c ++ [callback]
              else subscribers s c)
    ∧ (jsClass ∉ registeredNames s → s' = s).
Proof. apply registerUpgradedCallbackInternal_spec. Qed.

Lemma registerUpgradedCallback_appends_witness :
  reachable Scenario.registered
  ∧ ∃ s',
      registerUpgradedCallbackInternal "Widget" 8 Scenario.registered
      = (Normal, s')
      ∧ (subscribers s' <$> registeredComponents_ s') = [[7; 8]; []].
Proof.
  assert (reachable Scenario.registered) as Hreach
    by apply reachable_run, reachable_initial.
  split; [exact Hreach|].
  destruct (registerUpgradedCallback_appends Scenario.registered "Widget" 8
              Hreach) as (s' & Hs' & _).
  exists s'. split; [done|].
  vm_compute in Hs'. by injection Hs' as <-.
Defined.

(** ** One upgrade, in full *)

Lemma upgradeFor_effect registeredClass element upgradedList s :
  constructorThrows (classConstructor registeredClass) element = false →
  ∃ s',
    upgradeFor registeredClass element upgradedList s = (Normal, s')
    ∧ registeredComponents_ s' = registeredComponents_ s
    ∧ callbackArrays s' = callbackArrays s
    ∧ dataUpgraded s'
      = <[nodeId element := Js.join upgradedList]> (dataUpgraded s)
    ∧ createdComponents_ s'
      = createdComponents_ s
        ++ componentsFor (nodeId element) (nextComponentId s)
             [registeredClass]
    ∧ nextComponentId s' = S (nextComponentId s)
    ∧ widgetProperty s'
      = (if truthy (widget registeredClass)
         then <[(nodeId element, className registeredClass)
                := nextComponentId s]> (widgetProperty s)
         else widgetProperty s)
    ∧ trace s' = trace s ++ upgradeEvents s (nodeId element) registeredClass.
Proof.
  intros Hctor. unfold upgradeFor. rewrite Hctor.
  eexists. split; [done|].
  set (s1 := setCreated _ _).
  destruct (callCallbacks_frame registeredClass (nodeId element) s1)
    as (Hr & Hc & Ha & Hd & Hw & Hn).
  pose proof (callCallbacks_trace registeredClass (nodeId element) s1) as Ht.
  assert (subscribers s1 registeredClass = subscribers s registeredClass)
    as Hsub by done.
  rewrite Hsub in Ht. unfold upgradeEvents.
  destruct (truthy (widget registeredClass)); simpl;
    rewrite ?Hr, ?Hc, ?Ha, ?Hd, ?Hn, ?Hw, ?Ht; simpl;
    rewrite <- ?app_assoc; done.
Qed.

Section TypedUpgrade.

Variables (s : State) (element : Node) (jsClass : string)
  (registeredClass : ComponentConfig).

Hypothesis is_element : instanceofElement element = true.
Hypothesis not_prevented : upgradingPrevented element = false.
Hypothesis named : jsClass ≠ "".
Hypothesis registered : findRegisteredClass_ jsClass s = Some registeredClass.
Hypothesis constructs :
  constructorThrows (classConstructor registeredClass) element = false.
Hypothesis not_marked : isElementUpgraded_ s (nodeId element) jsClass = false.


End TypedUpgrade.



Lemma liveOn_app s s' element new :
  createdComponents_ s' = createdComponents_ s ++ new →
  liveOn s' element
  = liveOn s element ++ filter (fun c => element_ c = element) new.
Proof. intros Hc. unfold liveOn. by rewrite Hc, filter_app. Qed.





(** ** Upgrade, then downgrade *)






(** ** Downgrading several nodes *)






(** ** Upgrading without a type *)

Lemma scan_step_candidates s element l acc :
  NoDup (callbacks <$> (acc ++ l)) →
  fold_left
    (fun classesToUpgrade component =>
       if classList_contains element (cssClass component)
          && (Js.indexOf (sameConfig component) classesToUpgrade =? -1)%Z
          && negb (isElementUpgraded_ s (nodeId element) (className component))
       then classesToUpgrade ++ [component]
       else classesToUpgrade) l acc
  = acc ++ filter (fun c => cssClass c ∈ classList element
                            ∧ className c
                              ∉ getUpgradedListOfElement_ s (nodeId element))
             l.
Proof.
  revert acc. induction l as [|c l IH]; intros acc Hnd.
  { by rewrite app_nil_r. }
  cbn [fold_left].
  assert (Js.indexOf (sameConfig c) acc = (-1)%Z) as ->.
  { apply indexOf_none. intros x Hx. unfold sameConfig.
    apply bool_decide_eq_false_2. intros Heq.
    rewrite fmap_app, fmap_cons in Hnd. apply NoDup_app in Hnd as (_ & Hd & _).
    apply (Hd (callbacks x)); [by apply list_elem_of_fmap_2|].
    rewrite <- Heq. by left. }
  rewrite Z.eqb_refl, andb_true_r. unfold classList_contains.
  rewrite filter_cons.
  destruct (decide (cssClass c ∈ classList element
                    ∧ className c
                      ∉ getUpgradedListOfElement_ s (nodeId element)))
    as [[Hclass Hfresh]|Hno].
  - apply isElementUpgraded_false in Hfresh.
    rewrite bool_decide_eq_true_2, Hfresh by done. simpl.
    rewrite IH by by rewrite <- app_assoc. by rewrite <- app_assoc.
  - assert (bool_decide (cssClass c ∈ classList element)
            && negb (isElementUpgraded_ s (nodeId element) (className c))
            = false) as ->.
    { apply andb_false_iff.
      destruct (decide (cssClass c ∈ classList element)) as [Hclass|Hclass];
        [right|left; by apply bool_decide_eq_false_2].
      apply negb_false_iff, isElementUpgraded_spec.
      destruct (decide (className c
                        ∈ getUpgradedListOfElement_ s (nodeId element)));
        [done|]. exfalso. by apply Hno. }
    apply IH. rewrite fmap_app, fmap_cons in Hnd. rewrite fmap_app.
    apply NoDup_app in Hnd as (Ha & Hd & Hl). apply NoDup_cons in Hl as [_ Hl].
    apply NoDup_app. split_and!; [done| |done].
    intros x Hx Hx'. apply (Hd x Hx). by right.
Qed.

Lemma scanRegistered_candidates s element :
  Inv s → scanRegistered s element = candidates s element.
Proof.
  intros [_ _ _ Ho]. unfold scanRegistered, candidates.
  by rewrite scan_step_candidates.
Qed.

Lemma upgradeLoop_effect element classes upgradedList s :
  (∀ c, c ∈ classes →
        constructorThrows (classConstructor c) element = false) →
  ∃ s',
    upgradeLoop element (Some <$> classes) upgradedList s = (Normal, s')
    ∧ registeredComponents_ s' = registeredComponents_ s
    ∧ callbackArrays s' = callbackArrays s
    ∧ createdComponents_ s'
      = createdComponents_ s
        ++ componentsFor (nodeId element) (nextComponentId s) classes
    ∧ dataUpgraded s'
      = match classes with
        | [] => dataUpgraded s
        | _ :: _ =>
            <[nodeId element :=
                Js.join (upgradedList ++ (className <$> classes))]>
              (dataUpgraded s)
        end
    ∧ trace s'
      = trace s ++ concat (upgradeEvents s (nodeId element) <$> classes).
Proof.
  revert upgradedList s.
  induction classes as [|c classes IH]; intros upgradedList s Hctor.
  { exists s. split_and!; try done; simpl; by rewrite app_nil_r. }
  cbn [fmap list_fmap upgradeLoop]. unfold andThen.
  destruct (upgradeFor_effect c element (upgradedList ++ [className c]) s)
    as (s1 & -> & Hr1 & Ha1 & Hd1 & Hc1 & Hn1 & _ & Ht1).
  { apply Hctor. by left. }
  destruct (IH (upgradedList ++ [className c]) s1)
    as (s' & -> & Hr & Ha & Hc & Hd & Ht).
  { intros c' Hc'. apply Hctor. by right. }
  exists s'. split_and!; try congruence.
  - rewrite Hc, Hc1, Hn1. simpl. by rewrite <- app_assoc.
  - rewrite Hd, Hd1. destruct classes as [|c' classes]; [done|].
    rewrite insert_insert_eq. cbn [fmap list_fmap].
    by rewrite <- app_assoc.
  - rewrite Ht, Ht1. cbn [fmap list_fmap concat]. rewrite <- !app_assoc.
    do 2 f_equal. unfold upgradeEvents, subscribers. by rewrite Ha1.
Qed.

Lemma untyped_upgrade_effect s element :
  reachable s →
  instanceofElement element = true →
  upgradingPrevented element = false →
  (∀ c, c ∈ candidates s element →
        constructorThrows (classConstructor c) element = false) →
  ∃ s',
    upgradeElementInternal element None s = (Normal, s')
    ∧ registeredComponents_ s' = registeredComponents_ s
    ∧ callbackArrays s' = callbackArrays s
    ∧ createdComponents_ s'
      = createdComponents_ s
        ++ componentsFor (nodeId element) (nextComponentId s)
             (candidates s element)
    ∧ dataUpgraded s'
      = match candidates s element with
        | [] => dataUpgraded s
        | _ :: _ =>
            <[nodeId element :=
                Js.join (getUpgradedListOfElement_ s (nodeId element)
                         ++ (className <$> candidates s element))]>
              (dataUpgraded s)
        end
    ∧ trace s'
      = trace s
        ++ [Dispatched "mdl-componentupgrading" (nodeId element)]
        ++ concat (upgradeEvents s (nodeId element)
                     <$> candidates s element).
Proof.
  intros Hreach Helement Hprevented Hctor.
  pose proof (reachable_Inv s Hreach) as HInv.
  unfold upgradeElementInternal. rewrite Helement, Hprevented. simpl.
  set (s0 := dispatchEvent _ _ s).
  assert (scanRegistered s0 element = candidates s element) as ->.
  { change (scanRegistered s0 element) with (scanRegistered s element).
    by apply scanRegistered_candidates. }
  destruct (upgradeLoop_effect element (candidates s element)
              (getUpgradedListOfElement_ s0 (nodeId element)) s0 Hctor)
    as (s' & -> & Hr & Ha & Hc & Hd & Ht).
  exists s'. split_and!; try done.
  rewrite Ht. simpl. by rewrite <- app_assoc.
Qed.

Lemma upgradeLoop_returned element classes upgradedList s :
  (upgradeLoop element (Some <$> classes) upgradedList s).1 = Normal →
  ∀ c, c ∈ classes → constructorThrows (classConstructor c) element = false.
Proof.
  revert upgradedList s.
  induction classes as [|c classes IH]; intros upgradedList s;
    [by intros _ c ?%elem_of_nil|].
  cbn [fmap list_fmap upgradeLoop]. unfold andThen.
  destruct (constructorThrows (classConstructor c) element) eqn:Hctor.
  - by destruct (upgradeFor_thrown c element (upgradedList ++ [className c])
                   s Hctor) as (s' & -> & _).
  - destruct (upgradeFor_normal c element (upgradedList ++ [className c]) s
                Hctor) as (s' & -> & _).
    intros Hrest c' [->|Hc']%elem_of_cons; [done|]. by eapply IH.
Qed.

Lemma componentsFor_live element next classes :
  filter (fun c => element_ c = element) (componentsFor element next classes)
  = componentsFor element next classes
  ∧ mdlComponentConfigInternal_ <$> componentsFor element next classes
    = classes.
Proof.
  revert next. induction classes as [|c classes IH]; intros next; [done|].
  cbn [componentsFor]. rewrite filter_cons_True by done.
  destruct (IH (S next)) as [-> Hconfigs]. split; [done|].
  by rewrite fmap_cons, Hconfigs.
Qed.

(** An upgrade without type that returns, not cancelled, has upgraded the
    element for exactly the registered types whose marker class it carries
    and for which it was not marked, in registration order: the element
    has one component more for each, behind those it had, and the names
    are appended to the list in its attribute; when there is no such type,
    the attribute is not written. *)
Theorem untyped_upgrade_takes_candidates s element s' :
  reachable s →
  upgradingPrevented element = false →
  upgradeElementInternal element None s = (Normal, s') →
  mdlComponentConfigInternal_ <$> liveOn s' (nodeId element)
  = (mdlComponentConfigInternal_ <$> liveOn s (nodeId element))
    ++ candidates s element
  ∧ dataUpgraded s' !! nodeId element
    = match candidates s element with
      | [] => dataUpgraded s !! nodeId element
      | _ :: _ =>
          Some (Js.join (getUpgradedListOfElement_ s (nodeId element)
                         ++ (className <$> candidates s element)))
      end.
Proof.
  intros Hreach Hprevented Hs'.
  assert (instanceofElement element = true) as Helement.
  { destruct (instanceofElement element) eqn:Helement; [done|].
    unfold upgradeElementInternal in Hs'. by rewrite Helement in Hs'. }
  assert (∀ c, c ∈ candidates s element →
               constructorThrows (classConstructor c) element = false)
    as Hctor.
  { rewrite <- (scanRegistered_candidates s element)
      by by apply reachable_Inv.
    apply (upgradeLoop_returned element _
             (getUpgradedListOfElement_ s (nodeId element))
             (dispatchEvent "mdl-componentupgrading" (nodeId element) s)).
    unfold upgradeElementInternal in Hs'.
    rewrite Helement, Hprevented in Hs'. simpl in Hs'.
    change (scanRegistered s element)
      with (scanRegistered
              (dispatchEvent "mdl-componentupgrading" (nodeId element) s)
              element).
    change (getUpgradedListOfElement_ s (nodeId element))
      with (getUpgradedListOfElement_
              (dispatchEvent "mdl-componentupgrading" (nodeId element) s)
              (nodeId element)).
    by rewrite Hs'. }
  destruct (untyped_upgrade_effect s element Hreach Helement Hprevented Hctor)
    as (s'' & Hs'' & _ & _ & Hc & Hd & _).
  rewrite Hs' in Hs''. injection Hs'' as <-.
  destruct (componentsFor_live (nodeId element) (nextComponentId s)
              (candidates s element)) as [Hlive Hconfigs].
  split.
  - by rewrite (liveOn_app s s' _ _ Hc), Hlive, fmap_app, Hconfigs.
  - rewrite Hd. destruct (candidates s element); [done|].
    by rewrite lookup_insert_eq.
Qed.

Lemma untyped_upgrade_takes_candidates_witness :
  let element :=
    DomNode 9 HtmlElementNode ["g-js"; "x"; "w-js"] false [] [] in
  let s' := (upgradeElementInternal element None Scenario.registered).2 in
  className <$> (mdlComponentConfigInternal_ <$> liveOn s' 9)
  = ["Widget"; "Gadget"]
  ∧ dataUpgraded s' !! 9 = Some ",Widget,Gadget".
Proof.
  intros element s'.
  destruct (untyped_upgrade_takes_candidates Scenario.registered element s')
    as [Hlive Hd];
    [apply reachable_run, reachable_initial|reflexivity|reflexivity|].
  split.
  - change (liveOn s' 9) with (liveOn s' (nodeId element)).
    rewrite Hlive. reflexivity.
  - change 9 with (nodeId element). rewrite Hd. reflexivity.
Defined.




(** ** [upgradeDom] for a type that is not registered *)





(** ** The order of the descriptors *)

Lemma firstOccurrences_snoc names x :
  firstOccurrences (names ++ [x])
  = if bool_decide (x ∈ firstOccurrences names)
    then firstOccurrences names
    else firstOccurrences names ++ [x].
Proof.
  unfold firstOccurrences. rewrite reverse_snoc. cbn [remove_dups].
  destruct (decide_rel elem_of x (reverse names)) as [Hin|Hin].
  - rewrite bool_decide_eq_true_2; [done|].
    by rewrite elem_of_reverse, elem_of_remove_dups.
  - rewrite bool_decide_eq_false_2, reverse_cons; [done|].
    intros H. apply Hin.
    by rewrite elem_of_reverse, elem_of_remove_dups in H.
Qed.

Lemma run_snoc calls c s : run (calls ++ [c]) s = (call c (run calls s)).2.
Proof. unfold run. by rewrite fold_left_app. Qed.

(** The descriptors are in the order in which their names were first
    registered: after any sequence of [register] calls on a fresh handler
    the registered names are the names of the accepted registrations,
    each at its first occurrence; a rejected registration and a repeated
    name do not move anything. *)
Theorem registration_order attributes configs :
  registeredNames (run (Register <$> configs) (initialState attributes))
  = firstOccurrences (Public.classAsString <$> filter accepted configs).
Proof.
  induction configs as [|config configs IH] using rev_ind; [done|].
  rewrite fmap_app. change (Register <$> [config]) with [Register config].
  rewrite run_snoc, filter_app. cbn [call].
  set (s := run _ _) in *.
  destruct (prototypeHasConfigProperty (Public.constructor config))
    eqn:Hproto.
  - rewrite registerInternal_thrown by done.
    rewrite filter_cons_False, filter_nil, app_nil_r
      by (unfold accepted; by rewrite Hproto).
    exact IH.
  - rewrite registerInternal_names by done.
    rewrite filter_cons_True, filter_nil by done.
    rewrite fmap_app.
    change (Public.classAsString <$> [config])
      with [Public.classAsString config].
    by rewrite firstOccurrences_snoc, IH.
Qed.

(** ** What the public functions leave alone *)

(** Registration and upgrading keep apart: [register] and
    [registerUpgradedCallback] never touch the created components, the
    attributes, the properties of elements or the trace, however they
    complete; and the upgrades and the downgrade never touch the
    descriptors or their callbacks. *)
Theorem registration_and_upgrade_keep_apart c s :
  match c with
  | Register _ | RegisterUpgradedCallback _ _ =>
      createdComponents_ (call c s).2 = createdComponents_ s
      ∧ dataUpgraded (call c s).2 = dataUpgraded s
      ∧ widgetProperty (call c s).2 = widgetProperty s
      ∧ nextComponentId (call c s).2 = nextComponentId s
      ∧ trace (call c s).2 = trace s
  | _ =>
      registeredComponents_ (call c s).2 = registeredComponents_ s
      ∧ callbackArrays (call c s).2 = callbackArrays s
  end.
Proof.
  destruct c as [document o1 o2|element o|elements|document|jsClass cb
                |config|nodes]; cbn [call].
  - destruct (upgradeDomInternal_Step document o1 o2 s). done.
  - destruct (upgradeElementInternal_Step element o s). done.
  - destruct (upgradeElementsInternal_Step elements s). done.
  - destruct (upgradeAllRegisteredInternal_Step document s). done.
  - unfold registerUpgradedCallbackInternal.
    by destruct (findRegisteredClass_ jsClass s).
  - unfold registerInternal, findRegisteredClass_replace.
    destruct (prototypeHasConfigProperty _); [done|].
    cbn [registeredComponents_ setCallbackArrays].
    by destruct (findIndex _ _).
  - destruct (downgradeNodesInternal_Step nodes s). done.
Qed.

(** ** A constructor that throws *)



(** * The snackbar *)
Lemma snackbar_accepted data :
  Snackbar.accepted (Some data) = true →
  ∃ text, Snackbar.message data = Some text
          ∧ Snackbar.truthyFunction (Snackbar.actionHandler data)
            && negb (Snackbar.truthyString (Snackbar.actionText data))
            = false.
Proof.
  unfold Snackbar.accepted. intros [Hm Ha]%andb_true_iff.
  apply bool_decide_eq_true in Hm as [text Hm]. exists text. split; [done|].
  by destruct (Snackbar.truthyFunction _), (Snackbar.truthyString _).
Qed.

Lemma snackbar_rejected data s :
  Snackbar.accepted data = false →
  ∃ e, Snackbar.showSnackbar data s = (Snackbar.Failed e, s).
Proof.
  destruct data as [data|]; [|by eexists].
  unfold Snackbar.accepted, Snackbar.showSnackbar.
  destruct (Snackbar.message data) as [text|]; [|by eexists].
  rewrite bool_decide_eq_true_2 by done. simpl.
  destruct (Snackbar.truthyFunction _), (Snackbar.truthyString _);
    try done; by eexists.
Qed.

Lemma showSnackbar_waits data s :
  Snackbar.accepted (Some data) = true →
  Snackbar.active s = true →
  Snackbar.showSnackbar (Some data) s
  = (Snackbar.Done,
     Snackbar.setQueuedNotifications_
       (Snackbar.queuedNotifications_ s ++ [data]) s).
Proof.
  intros (text & Hm & Ha)%snackbar_accepted Hactive.
  unfold Snackbar.showSnackbar. by rewrite Hm, Ha, Hactive.
Qed.

Lemma showSnackbar_displays data s :
  Snackbar.accepted (Some data) = true →
  Snackbar.active s = false →
  Snackbar.timers s = [] →
  ∃ s',
    Snackbar.showSnackbar (Some data) s = (Snackbar.Done, s')
    ∧ Snackbar.active s' = true
    ∧ Snackbar.message_ s' = Snackbar.message data
    ∧ Snackbar.timeout_ s'
      = Some (match Snackbar.timeout data with
              | Some ms => if (ms =? 0)%Z then 2750%Z else ms
              | None => 2750%Z
              end)
    ∧ Snackbar.actionHandler_ s'
      = match Snackbar.actionHandler data with
        | Some handler => Some handler
        | None => Snackbar.actionHandler_ s
        end
    ∧ Snackbar.queuedNotifications_ s' = Snackbar.queuedNotifications_ s
    ∧ Snackbar.timers s'
      = [{| Snackbar.callback := Snackbar.CleanupBound;
            Snackbar.delay := Snackbar.timeout_ s' |}]
    ∧ Snackbar.classActive s' = true
    ∧ Snackbar.textContent s' = default "" (Snackbar.message data)
    ∧ Snackbar.textHistory s'
      = Snackbar.textHistory s ++ [default "" (Snackbar.message data)]
    ∧ Snackbar.clickListeners s'
      = match Snackbar.actionHandler_ s' with
        | Some handler =>
            if bool_decide (handler ∈ Snackbar.clickListeners s)
            then Snackbar.clickListeners s
            else Snackbar.clickListeners s ++ [handler]
        | None => Snackbar.clickListeners s
        end
    ∧ Snackbar.actionAriaHidden s'
      = match Snackbar.actionHandler_ s' with
        | Some _ => None
        | None => Snackbar.actionAriaHidden s
        end.
Proof.
  intros (text & Hm & Ha)%snackbar_accepted Hactive Htimers.
  destruct s as [a h m t ms q ca ah tc th atc aah cl ts].
  simpl in Htimers, Hactive. subst ts a.
  destruct data as [dm dh dt dms]. simpl in Hm, Ha. subst dm.
  unfold Snackbar.showSnackbar. cbn [Snackbar.message Snackbar.active
    Snackbar.actionHandler Snackbar.actionText Snackbar.timeout].
  rewrite Ha.
  destruct dh as [dh|], dms as [dms|]; simpl;
    destruct h as [h|]; simpl;
    repeat match goal with
           | |- context [(?x =? 0)%Z] => destruct (x =? 0)%Z; simpl
           | |- context [Snackbar.truthyString ?x] =>
               destruct (Snackbar.truthyString x); simpl
           end;
    unfold Snackbar.displaySnackbar_, Snackbar.addEventListener; simpl;
    repeat case_bool_decide; simpl;
    (eexists; split; [reflexivity|]); simpl; split_and!; try reflexivity.
  all: case_bool_decide; first [reflexivity | contradiction].
Qed.

Lemma MaterialSnackbar_Inv element :
  SnackbarInv (Snackbar.MaterialSnackbar element).
Proof. split; simpl; [constructor|done|done]. Qed.

(** The function of [cleanup_] up to its last call. *)
Lemma cleanupInner_effect s :
  ∃ s0,
    Snackbar.cleanupInner s = Snackbar.checkQueue_ s0
    ∧ Snackbar.active s0 = false
    ∧ Snackbar.actionHandler_ s0 = None
    ∧ Snackbar.queuedNotifications_ s0 = Snackbar.queuedNotifications_ s
    ∧ Snackbar.timers s0 = Snackbar.timers s
    ∧ Snackbar.textHistory s0 = Snackbar.textHistory s ++ [""]
    ∧ Snackbar.clickListeners s0
      = (if Snackbar.truthyString (Snackbar.actionAriaHidden s)
         then Snackbar.clickListeners s
         else match Snackbar.actionHandler_ s with
              | Some h => filter (fun l => l ≠ h) (Snackbar.clickListeners s)
              | None => Snackbar.clickListeners s
              end)
    ∧ Snackbar.actionAriaHidden s0
      = (if Snackbar.truthyString (Snackbar.actionAriaHidden s)
         then Snackbar.actionAriaHidden s
         else Some "true").
Proof.
  destruct s as [a h m t ms q ca ah tc th atc aah cl ts].
  unfold Snackbar.cleanupInner. simpl.
  destruct (Snackbar.truthyString aah); simpl;
    [|destruct h as [h|]; simpl];
    (eexists; split; [reflexivity|]); simpl; by split_and!.
Qed.

Lemma checkQueue_effect s :
  Snackbar.active s = false →
  Snackbar.timers s = [] →
  Forall (fun data => Snackbar.accepted (Some data) = true)
    (Snackbar.queuedNotifications_ s) →
  match Snackbar.queuedNotifications_ s with
  | [] => Snackbar.checkQueue_ s = (Snackbar.Done, s)
  | data :: rest =>
      ∃ s',
        Snackbar.checkQueue_ s = (Snackbar.Done, s')
        ∧ Snackbar.active s' = true
        ∧ Snackbar.message_ s' = Snackbar.message data
        ∧ Snackbar.actionHandler_ s'
          = match Snackbar.actionHandler data with
            | Some handler => Some handler
            | None => Snackbar.actionHandler_ s
            end
        ∧ Snackbar.queuedNotifications_ s' = rest
        ∧ Snackbar.timers s'
          = [{| Snackbar.callback := Snackbar.CleanupBound;
                Snackbar.delay := Snackbar.timeout_ s' |}]
        ∧ Snackbar.classActive s' = true
        ∧ Snackbar.textContent s' = default "" (Snackbar.message data)
        ∧ Snackbar.textHistory s'
          = Snackbar.textHistory s ++ [default "" (Snackbar.message data)]
        ∧ Snackbar.clickListeners s'
          = match Snackbar.actionHandler_ s' with
            | Some handler =>
                if bool_decide (handler ∈ Snackbar.clickListeners s)
                then Snackbar.clickListeners s
                else Snackbar.clickListeners s ++ [handler]
            | None => Snackbar.clickListeners s
            end
        ∧ Snackbar.actionAriaHidden s'
          = match Snackbar.actionHandler_ s' with
            | Some _ => None
            | None => Snackbar.actionAriaHidden s
            end
  end.
Proof.
  intros Hactive Htimers Hqueue. unfold Snackbar.checkQueue_.
  destruct (Snackbar.queuedNotifications_ s) as [|data rest]; [done|].
  apply Forall_cons in Hqueue as [Hdata _].
  destruct (showSnackbar_displays data
              (Snackbar.setQueuedNotifications_ rest s) Hdata)
    as (s' & -> & H); [done..|].
  simpl in H. destruct H as (? & ? & _ & ? & ? & ? & ? & ? & ? & ? & ?).
  exists s'. by split_and!.
Qed.

(** One step keeps the invariant, and a timer never fails. *)
Lemma snackbar_step_Inv e s :
  SnackbarInv s →
  SnackbarInv (Snackbar.step e s).2
  ∧ (∀ i, e = Snackbar.Fire i → (Snackbar.step e s).1 = Snackbar.Done).
Proof.
  intros HInv. pose proof HInv as [Hqueue Hidle Hbusy].
  destruct e as [data|i].
  - split; [|done]. cbn [Snackbar.step].
    destruct (Snackbar.accepted data) eqn:Haccepted.
    + destruct data as [data|]; [|done].
      destruct (Snackbar.active s) eqn:Hactive.
      * rewrite showSnackbar_waits by done. split; simpl.
        -- apply Forall_app. split; [done|]. by constructor.
        -- by rewrite Hactive.
        -- intros _. by apply Hbusy.
      * destruct (Hidle eq_refl) as (Htimers & Hq & Hh).
        destruct (showSnackbar_displays data s Haccepted Hactive Htimers)
          as (s' & -> & Ha' & Hm' & _ & _ & Hq' & Ht' & Hc' & Htc' & _).
        split; simpl.
        -- by rewrite Hq', Hq.
        -- by rewrite Ha'.
        -- intros _. left. by rewrite Hm'.
    + destruct (snackbar_rejected data s Haccepted) as (e & ->). by split.
  - cbn [Snackbar.step].
    destruct (Snackbar.active s) eqn:Hactive.
    + destruct (Hbusy eq_refl) as [(Ht & Hc & Htc)|(Ht & Hc)]; rewrite Ht;
        (destruct i as [|i]; [|by simpl]); cbn [lookup list_lookup].
      * cbn [Snackbar.callback]. split; [|done]. split; simpl; [done|..].
        -- by rewrite Hactive.
        -- intros _. by right.
      * cbn [Snackbar.callback].
        destruct (cleanupInner_effect
                    (Snackbar.setTimers (delete 0 (Snackbar.timers s)) s))
          as (s0 & Heq & Ha0 & Hh0 & Hq0 & Ht0 & _).
        rewrite Ht in Heq, Ht0. rewrite Heq. simpl in Hq0, Ht0.
        pose proof (checkQueue_effect s0 Ha0 Ht0) as Hcheck.
        rewrite Hq0 in Hcheck. specialize (Hcheck Hqueue).
        destruct (Snackbar.queuedNotifications_ s) as [|data rest].
        -- rewrite Hcheck. split; [|done]. split; simpl.
           ++ rewrite Hq0. constructor.
           ++ done.
           ++ by rewrite Ha0.
        -- destruct Hcheck
             as (s' & -> & Ha' & Hm' & _ & Hq' & Ht' & Hc' & Htc' & _).
           split; [|done]. apply Forall_cons in Hqueue as [_ Hrest].
           split; simpl.
           ++ by rewrite Hq'.
           ++ by rewrite Ha'.
           ++ intros _. left. by rewrite Hm'.
    + destruct (Hidle eq_refl) as (Ht & Hq & Hh). rewrite Ht.
      rewrite lookup_nil. by split.
Qed.

Lemma snackbar_run_snoc steps e s :
  Snackbar.run (steps ++ [e]) s
  = (Snackbar.step e (Snackbar.run steps s)).2.
Proof. unfold Snackbar.run. by rewrite fold_left_app. Qed.

Lemma snackbar_run_app steps1 steps2 s :
  Snackbar.run (steps1 ++ steps2) s
  = Snackbar.run steps2 (Snackbar.run steps1 s).
Proof. unfold Snackbar.run. by rewrite fold_left_app. Qed.

Lemma snackbar_run_Inv steps s :
  SnackbarInv s → SnackbarInv (Snackbar.run steps s).
Proof.
  induction steps as [|e steps IH] using rev_ind; [done|].
  intros Hs. rewrite snackbar_run_snoc. by apply snackbar_step_Inv, IH.
Qed.

Lemma shownAndCleared_snoc texts text :
  Snackbar.shownAndCleared (texts ++ [text])
  = Snackbar.shownAndCleared texts ++ [text; ""].
Proof.
  unfold Snackbar.shownAndCleared. by rewrite bind_app.
Qed.

Lemma acceptedMessages_snoc steps e :
  Snackbar.acceptedMessages (steps ++ [e])
  = Snackbar.acceptedMessages steps ++ Snackbar.acceptedMessages [e].
Proof. unfold Snackbar.acceptedMessages. by rewrite bind_app. Qed.

Lemma acceptedMessages_one e :
  Snackbar.acceptedMessages [e]
  = match e with
    | Snackbar.Show (Some data) =>
        if Snackbar.accepted (Some data)
        then [default "" (Snackbar.message data)]
        else []
    | _ => []
    end.
Proof.
  unfold Snackbar.acceptedMessages.
  destruct e as [[data|]|i]; cbn -[Snackbar.accepted]; [|done..].
  by rewrite app_nil_r.
Qed.

Lemma snackbar_step_History e s texts :
  SnackbarInv s →
  SnackbarHistory texts s →
  SnackbarHistory (texts ++ Snackbar.acceptedMessages [e])
    (Snackbar.step e s).2.
Proof.
  intros [Hqueue Hidle Hbusy] (done & Htexts & Hhistory).
  unfold Snackbar.displayed, Snackbar.waiting in Htexts, Hhistory.
  rewrite acceptedMessages_one.
  destruct e as [[data|]|i].
  - cbn [Snackbar.step].
    destruct (Snackbar.accepted (Some data)) eqn:Haccepted.
    + destruct (Snackbar.active s) eqn:Hactive.
      * rewrite showSnackbar_waits by done. exists done.
        unfold Snackbar.displayed, Snackbar.waiting. simpl.
        rewrite Hactive, fmap_app, Htexts, Hhistory. simpl.
        by rewrite <- !app_assoc.
      * destruct (Hidle eq_refl) as (Htimers & Hq & Hh).
        destruct (showSnackbar_displays data s Haccepted Hactive Htimers)
          as (s' & -> & Ha' & Hm' & _ & _ & Hq' & _ & _ & _ & Hth' & _).
        exists done. unfold Snackbar.displayed, Snackbar.waiting. simpl.
        rewrite Ha', Hm', Hq', Hth', Hhistory, Htexts, Hq. simpl.
        by rewrite !app_nil_r.
    + destruct (snackbar_rejected (Some data) s Haccepted) as (e & ->).
      exists done. unfold Snackbar.displayed, Snackbar.waiting. simpl.
      by rewrite app_nil_r.
  - exists done. unfold Snackbar.displayed, Snackbar.waiting. simpl.
    by rewrite app_nil_r.
  - rewrite app_nil_r. cbn [Snackbar.step].
    destruct (Snackbar.active s) eqn:Hactive.
    + destruct (Hbusy eq_refl) as [(Ht & Hc & Htc)|(Ht & Hc)]; rewrite Ht;
        (destruct i as [|i];
         [|exists done; unfold Snackbar.displayed, Snackbar.waiting;
           simpl; by rewrite Hactive]);
        cbn [lookup list_lookup Snackbar.callback].
      * exists done. unfold Snackbar.displayed, Snackbar.waiting. simpl.
        by rewrite Hactive.
      * destruct (cleanupInner_effect
                    (Snackbar.setTimers (delete 0 (Snackbar.timers s)) s))
          as (s0 & Heq & Ha0 & Hh0 & Hq0 & Ht0 & Hth0 & _).
        rewrite Ht in Heq, Ht0. rewrite Heq.
        simpl in Hq0, Ht0, Hth0.
        pose proof (checkQueue_effect s0 Ha0 Ht0) as Hcheck.
        rewrite Hq0 in Hcheck. specialize (Hcheck Hqueue).
        exists (done ++ [default "" (Snackbar.message_ s)]).
        rewrite shownAndCleared_snoc.
        unfold Snackbar.displayed, Snackbar.waiting.
        destruct (Snackbar.queuedNotifications_ s) as [|data rest].
        -- rewrite Hcheck. simpl. rewrite Ha0, Hq0, Hth0, Hhistory, Htexts.
           simpl. by rewrite <- !app_assoc.
        -- destruct Hcheck
             as (s' & -> & Ha' & Hm' & _ & Hq' & _ & _ & _ & Hth' & _).
           simpl. rewrite Ha', Hm', Hq', Hth', Hth0, Hhistory, Htexts.
           simpl. by rewrite <- !app_assoc.
    + destruct (Hidle eq_refl) as (Ht & Hq & Hh). rewrite Ht.
      rewrite lookup_nil. exists done.
      unfold Snackbar.displayed, Snackbar.waiting. simpl.
      by rewrite Hactive.
Qed.

Lemma snackbar_run_History steps element :
  SnackbarHistory (Snackbar.acceptedMessages steps)
    (Snackbar.run steps (Snackbar.MaterialSnackbar element)).
Proof.
  induction steps as [|e steps IH] using rev_ind.
  - by exists [].
  - rewrite snackbar_run_snoc, acceptedMessages_snoc.
    apply snackbar_step_History; [|done].
    apply snackbar_run_Inv, MaterialSnackbar_Inv.
Qed.



Lemma fire_pendingSteps s :
  SnackbarInv s →
  pendingSteps (Snackbar.step (Snackbar.Fire 0) s).2 = pred (pendingSteps s).
Proof.
  intros [Hqueue Hidle Hbusy]. cbn [Snackbar.step]. unfold pendingSteps at 2.
  destruct (Snackbar.active s) eqn:Hactive.
  - destruct (Hbusy eq_refl) as [(Ht & Hc & Htc)|(Ht & Hc)]; rewrite Ht;
      cbn [lookup list_lookup Snackbar.callback]; [done|].
    destruct (cleanupInner_effect
                (Snackbar.setTimers (delete 0 (Snackbar.timers s)) s))
      as (s0 & Heq & Ha0 & Hh0 & Hq0 & Ht0 & _).
    rewrite Ht in Heq, Ht0. rewrite Heq. simpl in Hq0, Ht0.
    pose proof (checkQueue_effect s0 Ha0 Ht0) as Hcheck.
    rewrite Hq0 in Hcheck. specialize (Hcheck Hqueue).
    destruct (Snackbar.queuedNotifications_ s) as [|data rest].
    + rewrite Hcheck. unfold pendingSteps. simpl. by rewrite Ht0.
    + destruct Hcheck as (s' & -> & _ & _ & _ & Hq' & Ht' & _).
      unfold pendingSteps. simpl. rewrite Ht', Hq'. simpl. lia.
  - destruct (Hidle eq_refl) as (Ht & Hq & Hh). rewrite Ht. simpl.
    unfold pendingSteps. by rewrite Ht.
Qed.

Lemma fire_drains n s :
  SnackbarInv s →
  (pendingSteps s ≤ n)%nat →
  pendingSteps (Snackbar.run (replicate n (Snackbar.Fire 0)) s) = 0.
Proof.
  revert s. induction n as [|n IH]; intros s Hs Hn; [simpl; lia|].
  change (Snackbar.run (replicate (S n) (Snackbar.Fire 0)) s)
    with (Snackbar.run (replicate n (Snackbar.Fire 0))
            (Snackbar.step (Snackbar.Fire 0) s).2).
  apply IH; [by apply snackbar_step_Inv|].
  rewrite fire_pendingSteps by done. lia.
Qed.

Lemma pendingSteps_bound s :
  (pendingSteps s
   ≤ 2 * (1 + length (Snackbar.queuedNotifications_ s)))%nat.
Proof.
  unfold pendingSteps. destruct (Snackbar.timers s) as [|[[] ?] ?]; simpl; lia.
Qed.

Lemma pendingSteps_idle s :
  SnackbarInv s →
  pendingSteps s = 0 →
  Snackbar.active s = false ∧ Snackbar.timers s = []
  ∧ Snackbar.queuedNotifications_ s = [].
Proof.
  intros [Hqueue Hidle Hbusy] Hpending.
  destruct (Snackbar.active s) eqn:Hactive.
  - unfold pendingSteps in Hpending.
    destruct (Hbusy eq_refl) as [(Ht & _)|(Ht & _)]; rewrite Ht in Hpending;
      simpl in Hpending; lia.
  - destruct (Hidle eq_refl) as (Ht & Hq & _). done.
Qed.

Lemma acceptedMessages_fires n i :
  Snackbar.acceptedMessages (replicate n (Snackbar.Fire i)) = [].
Proof. by induction n. Qed.

(** Notifications are shown in the order of the calls, one at a time:
    after any calls of [showSnackbar] and any timers, the texts of the
    notifications that were not rejected are those shown and cleared
    already, then the one on display, then those that wait; and the
    message element has received exactly the texts shown, each followed by
    the empty text of the cleanup, except for the one on display. *)
Theorem snackbar_shows_in_order element steps :
  let s := Snackbar.run steps (Snackbar.MaterialSnackbar element) in
  ∃ done,
    Snackbar.acceptedMessages steps
    = done ++ Snackbar.displayed s ++ Snackbar.waiting s
    ∧ Snackbar.textHistory s
      = Snackbar.shownAndCleared done ++ Snackbar.displayed s.
Proof. apply snackbar_run_History. Qed.


(** Every notification gets its turn: when the timers fire, twice for the
    notification on display and for each that waits, the snackbar is idle
    again, nothing waits, and the message element has shown the texts of
    all accepted notifications, in the order of the calls, each followed
    by the empty text. *)
Theorem snackbar_drains element steps :
  let s := Snackbar.run steps (Snackbar.MaterialSnackbar element) in
  let s' :=
    Snackbar.run
      (replicate (2 * (1 + length (Snackbar.queuedNotifications_ s)))
         (Snackbar.Fire 0)) s in
  Snackbar.active s' = false
  ∧ Snackbar.timers s' = []
  ∧ Snackbar.queuedNotifications_ s' = []
  ∧ Snackbar.textHistory s'
    = Snackbar.shownAndCleared (Snackbar.acceptedMessages steps).
Proof.
  intros s s'.
  assert (SnackbarInv s) as HInv
    by apply snackbar_run_Inv, MaterialSnackbar_Inv.
  assert (SnackbarInv s') as HInv' by by apply snackbar_run_Inv.
  destruct (pendingSteps_idle s' HInv') as (Hactive & Htimers & Hqueue).
  { apply fire_drains; [done|apply pendingSteps_bound]. }
  split_and!; [done..|].
  pose proof (snackbar_run_History
                (steps
                 ++ replicate
                      (2 * (1 + length (Snackbar.queuedNotifications_ s)))
                      (Snackbar.Fire 0)) element) as (done & Htexts & Hhistory).
  rewrite snackbar_run_app in Htexts, Hhistory.
  fold s in Htexts, Hhistory. fold s' in Htexts, Hhistory.
  unfold Snackbar.displayed, Snackbar.waiting in Htexts, Hhistory.
  rewrite Hactive in Htexts, Hhistory. rewrite Hqueue in Htexts.
  unfold Snackbar.acceptedMessages in Htexts. rewrite bind_app in Htexts.
  fold (Snackbar.acceptedMessages steps) in Htexts.
  fold (Snackbar.acceptedMessages
          (replicate (2 * (1 + length (Snackbar.queuedNotifications_ s)))
             (Snackbar.Fire 0))) in Htexts.
  rewrite acceptedMessages_fires in Htexts. simpl in Htexts.
  rewrite !app_nil_r in Htexts. rewrite app_nil_r in Hhistory.
  by rewrite Hhistory, Htexts.
Qed.



(** * The string functions *)

Section DecoderProofs.

Context {A : Type} `{EqDecision A}.

Local Open Scope nat_scope.

Lemma take_S_drop (s : list A) k :
  take (S k) s = take k s ++ take 1 (drop k s).
Proof.
  revert s. induction k as [|k IH]; intros [|x s]; simpl; try done.
  by rewrite <- IH.
Qed.

Lemma take_add_drop (s : list A) a b :
  take (a + b) s = take a s ++ take b (drop a s).
Proof.
  revert s. induction a as [|a IH]; intros s; [done|].
  destruct s as [|x s]; simpl; [by rewrite take_nil|]. by rewrite IH.
Qed.

Lemma alternate_snoc (s : list A) x :
  Decoder.alternate (s ++ [x])
  = if Nat.even (length s)
    then (Decoder.evens s ++ [x], Decoder.odds s)
    else (Decoder.evens s, Decoder.odds s ++ [x]).
Proof.
  unfold Decoder.evens, Decoder.odds.
  induction s as [|y s IH]; [done|].
  cbn [app Decoder.alternate length]. rewrite IH.
  rewrite Nat.even_succ, <- Nat.negb_even.
  destruct (Decoder.alternate s) as [e o].
  by destruct (Nat.even (length s)).
Qed.

Lemma remainderTruthy_odd k :
  Decoder.remainderTruthy (Z.of_nat k) 2 = negb (Nat.even k).
Proof.
  unfold Decoder.remainderTruthy. change (2 =? 0)%Z with false.
  cbn [negb]. f_equal. rewrite Z.rem_mod_nonneg by lia.
  destruct (Nat.even k) eqn:Heven.
  - apply Nat.even_spec in Heven as [n ->]. apply Z.eqb_eq.
    replace (Z.of_nat (2 * n)) with (Z.of_nat n * 2)%Z by lia.
    apply Z.mod_mul. lia.
  - assert (Nat.odd k = true) as [n ->]%Nat.odd_spec
      by by rewrite <- Nat.negb_even, Heven.
    apply Z.eqb_neq.
    replace (Z.of_nat (2 * n + 1)) with (1 + Z.of_nat n * 2)%Z by lia.
    rewrite Z.mod_add by lia. done.
Qed.

Lemma clothef_inside (s : list A) from count :
  Decoder.clothef s (Z.of_nat from) (Some (Z.of_nat count))
  = take count (drop from s).
Proof.
  unfold Decoder.clothef, Decoder.substr.
  assert ((Z.of_nat from <? 0)%Z = false) as ->
    by (apply Z.ltb_ge; lia).
  replace (Z.to_nat (Z.min (Z.of_nat from) (Z.of_nat (length s))))
    with (Nat.min from (length s)) by lia.
  replace (Z.to_nat
             (Z.min (Z.max (Z.of_nat count) 0)
                (Z.of_nat (length s)
                 - Z.min (Z.of_nat from) (Z.of_nat (length s)))))
    with (Nat.min count (length s - from)) by lia.
  destruct (decide (from ≤ length s)) as [Hfrom|Hfrom].
  - rewrite (Nat.min_l from) by done.
    destruct (decide (count ≤ length s - from)) as [Hcount|Hcount].
    + by rewrite Nat.min_l by done.
    + rewrite Nat.min_r by lia.
      rewrite !take_ge; [done|rewrite length_drop; lia..].
  - rewrite !drop_ge by lia. by rewrite !take_nil.
Qed.

Lemma clothef_rest (s : list A) from :
  Decoder.clothef s (Z.of_nat from) None = drop from s.
Proof.
  unfold Decoder.clothef, Decoder.substr.
  assert ((Z.of_nat from <? 0)%Z = false) as ->
    by (apply Z.ltb_ge; lia).
  replace (Z.to_nat (Z.min (Z.of_nat from) (Z.of_nat (length s))))
    with (Nat.min from (length s)) by lia.
  destruct (decide (from ≤ length s)) as [Hfrom|Hfrom].
  - rewrite (Nat.min_l from) by done.
    apply take_ge. rewrite length_drop. lia.
  - rewrite !drop_ge by lia. by rewrite take_nil.
Qed.

Lemma godlc_toplevel (s : list A) k :
  Decoder.godlc Decoder.toplevel s (Z.of_nat k) = take 1 (drop k s).
Proof. apply (clothef_inside s k 1). Qed.

Lemma quotient6_loop_toplevel (s : list A) rounds k :
  Decoder.quotient6_loop Decoder.toplevel s rounds (Z.of_nat k)
    (reverse (Decoder.evens (take k s)) ++ Decoder.odds (take k s))
  = reverse (Decoder.evens (take (k + rounds) s))
    ++ Decoder.odds (take (k + rounds) s).
Proof.
  revert k. induction rounds as [|rounds IH]; intros k.
  - by rewrite Nat.add_0_r.
  - cbn [Decoder.quotient6_loop].
    replace (Z.of_nat k + 1)%Z with (Z.of_nat (S k)) by lia.
    replace (k + S rounds) with (S k + rounds) by lia.
    rewrite <- IH. f_equal.
    rewrite godlc_toplevel. unfold Decoder.brights.
    change (Decoder.rosep Decoder.toplevel - Decoder.thus4o Decoder.toplevel)%Z
      with 2%Z.
    rewrite remainderTruthy_odd, (take_S_drop s k).
    destruct (decide (k < length s)) as [Hk|Hk].
    + destruct (drop k s) as [|x rest] eqn:Hdrop.
      { apply (f_equal length) in Hdrop. rewrite length_drop in Hdrop.
        simpl in Hdrop. lia. }
      cbn [take]. rewrite take_0.
      unfold Decoder.evens, Decoder.odds. rewrite alternate_snoc.
      rewrite length_take, Nat.min_l by lia.
      destruct (Nat.even k); simpl.
      * by rewrite reverse_snoc.
      * by rewrite app_assoc.
    + rewrite drop_ge by lia. rewrite take_nil, !app_nil_r.
      by destruct (negb _).
Qed.

Lemma join_snoc_pieces (separator : list A) pieces piece :
  Decoder.join separator (pieces ++ [piece])
  = concat ((fun p => p ++ separator) <$> pieces) ++ piece.
Proof.
  induction pieces as [|p pieces IH]; [done|].
  change (Decoder.join separator ((p :: pieces) ++ [piece]))
    with (match pieces ++ [piece] with
          | [] => p
          | _ :: _ =>
              p ++ separator ++ Decoder.join separator (pieces ++ [piece])
          end).
  rewrite IH. destruct pieces; simpl; by rewrite <- ?app_assoc.
Qed.

(** Two occurrences of an unbordered separator do not overlap. *)
Lemma unbordered_apart (text separator : list A) j k :
  Decoder.unbordered separator →
  take (length separator) (drop j text) = separator →
  take (length separator) (drop k text) = separator →
  j < k →
  j + length separator ≤ k.
Proof.
  intros [Hne Hborder] Hj Hk Hjk.
  destruct (decide (j + length separator ≤ k)) as [|Hoverlap]; [done|].
  exfalso. set (m := length separator) in *.
  apply (Hborder (m - (k - j))); [lia|].
  replace (m - (m - (k - j))) with (k - j) by lia.
  trans (take (m - (k - j)) (take m (drop k text))); [by rewrite Hk|].
  trans (drop (k - j) (take m (drop j text))); [|by rewrite Hj].
  rewrite take_take, Nat.min_l by lia.
  replace m with ((k - j) + (m - (k - j))) at 2 by lia.
  rewrite <- take_drop_commute, drop_drop.
  by replace (j + (k - j)) with k by lia.
Qed.

(** An occurrence of a non-empty separator in the first characters of a
    string is one in the string, and ends within these characters. *)
Lemma occursAt_take (text separator : list A) n j :
  0 < length separator →
  Decoder.occursAt separator (take n text) j →
  Decoder.occursAt separator text j ∧ j + length separator ≤ n.
Proof.
  unfold Decoder.occursAt. intros Hpos Hocc.
  assert (j + length separator ≤ n) as Hn.
  { apply (f_equal length) in Hocc.
    rewrite length_take, length_drop, length_take in Hocc. lia. }
  split; [|done]. rewrite <- Hocc at 2.
  replace n with (j + (n - j)) by lia.
  rewrite <- take_drop_commute, take_take. f_equal. lia.
Qed.

Lemma zcwqc_loop_pieces (text separator : list A) rounds k prefix pieces o :
  Decoder.unbordered separator →
  k + rounds ≤ length text - length separator + 1 →
  length separator ≤ length text →
  concat ((fun p => p ++ separator) <$> pieces) = take o text →
  o ≤ length text →
  (o ≤ k
   ∨ length separator ≤ o
     ∧ o - length separator < k
     ∧ take (length separator) (drop (o - length separator) text)
       = separator) →
  (∀ j, o ≤ j < k → ¬ Decoder.occursAt separator text j) →
  Forall (fun piece => ∀ j, ¬ Decoder.occursAt separator piece j) pieces →
  ∃ pieces' o',
    Decoder.zcwqc_loop text separator (Z.of_nat (length separator)) rounds
      (Z.of_nat k) (prefix ++ pieces) (Z.of_nat o)
    = (prefix ++ pieces', Z.of_nat o')
    ∧ concat ((fun p => p ++ separator) <$> pieces') = take o' text
    ∧ o' ≤ length text
    ∧ (∀ j, o' ≤ j < k + rounds → ¬ Decoder.occursAt separator text j)
    ∧ Forall (fun piece => ∀ j, ¬ Decoder.occursAt separator piece j)
        pieces'.
Proof.
  intros Hsep. revert k pieces o.
  induction rounds as [|rounds IH];
    intros k pieces o Hk Hm Hpieces Ho Hlast Hnone Hclean.
  - exists pieces, o. rewrite Nat.add_0_r. by split_and!.
  - cbn [Decoder.zcwqc_loop].
    rewrite clothef_inside.
    replace (Z.of_nat k + 1)%Z with (Z.of_nat (S k)) by lia.
    replace (k + S rounds) with (S k + rounds) by lia.
    case_bool_decide as Hmatch.
    + assert (o ≤ k) as Hok.
      { destruct Hlast as [|(Hmo & Hlt & Hprev)]; [done|].
        pose proof (unbordered_apart text separator
                      (o - length separator) k Hsep Hprev Hmatch Hlt).
        lia. }
      assert (0 < length separator) as Hpos.
      { destruct Hsep as [Hne _]. destruct separator; [done|simpl; lia]. }
      replace (Z.of_nat k - Z.of_nat o)%Z with (Z.of_nat (k - o)) by lia.
      rewrite clothef_inside.
      replace (Z.of_nat k + Z.of_nat (length separator))%Z
        with (Z.of_nat (k + length separator)) by lia.
      rewrite <- app_assoc.
      apply IH; [lia|done| |lia| | |].
      * rewrite fmap_app, concat_app, Hpieces. simpl.
        rewrite app_nil_r, <- Hmatch at 1.
        replace (k + length separator) with (o + ((k - o) + length separator))
          by lia.
        rewrite (take_add_drop text o), (take_add_drop (drop o text) (k - o)).
        rewrite drop_drop.
        by replace (o + (k - o)) with k by lia.
      * right. split_and!; [lia|lia|].
        by replace (k + length separator - length separator) with k by lia.
      * intros j Hj. lia.
      * apply Forall_app. split; [done|]. apply Forall_singleton.
        intros j [Hocc Hj]%occursAt_take; [|done].
        apply (Hnone (o + j)); [lia|].
        unfold Decoder.occursAt in *. by rewrite <- drop_drop.
    + apply IH; [lia|done..| | |done].
      * destruct Hlast as [|(? & ? & ?)]; [left; lia|right].
        split_and!; [done|lia|done].
      * intros j Hj. destruct (decide (j = k)) as [->|]; [done|].
        apply Hnone. lia.
Qed.

Lemma alternate_Permutation (s : list A) :
  Decoder.evens s ++ Decoder.odds s ≡ₚ s.
Proof.
  unfold Decoder.evens, Decoder.odds.
  induction s as [|x s IH]; [done|].
  cbn [Decoder.alternate]. destruct (Decoder.alternate s) as [e o].
  simpl in *. constructor. by rewrite (comm app).
Qed.

Lemma quotient6_toplevel (s : list A) :
  Decoder.quotient6 Decoder.toplevel s
  = reverse (Decoder.evens (take (Z.to_nat 33414) s))
    ++ Decoder.odds (take (Z.to_nat 33414) s).
Proof.
  unfold Decoder.quotient6.
  change (Decoder.ulwmoge Decoder.toplevel) with (Z.of_nat 0).
  change (33414 - Z.of_nat 0)%Z with 33414%Z.
  generalize (Z.to_nat 33414). intros n.
  exact (quotient6_loop_toplevel s n 0).
Qed.

(** [zcwqc] cuts a string at the occurrences of the separator, as
    [split] does: with a separator that cannot overlap itself, and [oht]
    and the loop start at zero as the top level leaves them, the pieces it
    adds, joined with the separator, are the string, and the separator
    occurs in none of them.  The pieces are appended to the global array
    [pnvjy], which is what the function returns: what the array held
    before comes first. *)
Theorem zcwqc_rejoins (g : Decoder.Globals A) (liveb paelpj1 : list A) :
  Decoder.unbordered paelpj1 →
  Decoder.ulwmoge g = 0%Z →
  Decoder.oht g = 0%Z →
  ∃ pieces,
    (Decoder.zcwqc g liveb paelpj1).1 = Decoder.pnvjy g ++ pieces
    ∧ Decoder.pnvjy (Decoder.zcwqc g liveb paelpj1).2
      = Decoder.pnvjy g ++ pieces
    ∧ Decoder.join paelpj1 pieces = liveb
    ∧ Forall (fun piece => ∀ j, ¬ Decoder.occursAt paelpj1 piece j) pieces.
Proof.
  intros Hsep Hstart Hlast. unfold Decoder.zcwqc, Decoder.rccaf.
  rewrite Hstart, Hlast.
  assert (0 < length paelpj1) as Hpos.
  { destruct Hsep as [Hne _]. destruct paelpj1; [done|simpl; lia]. }
  assert (∃ pieces o,
            Decoder.zcwqc_loop liveb paelpj1 (Z.of_nat (length paelpj1))
              (Z.to_nat
                 (Z.of_nat (length liveb) - Z.of_nat (length paelpj1) - 0
                  + 1))
              0%Z (Decoder.pnvjy g) 0%Z
            = (Decoder.pnvjy g ++ pieces, Z.of_nat o)
            ∧ concat ((fun p => p ++ paelpj1) <$> pieces) = take o liveb
            ∧ o ≤ length liveb
            ∧ (∀ j, o ≤ j → j + length paelpj1 ≤ length liveb →
                    ¬ Decoder.occursAt paelpj1 liveb j)
            ∧ Forall (fun piece => ∀ j, ¬ Decoder.occursAt paelpj1 piece j)
                pieces)
    as (pieces & o & -> & Hpieces & Ho & Hnone & Hclean).
  { destruct (decide (length paelpj1 ≤ length liveb)) as [Hm|Hm].
    - destruct (zcwqc_loop_pieces liveb paelpj1
                  (Z.to_nat
                     (Z.of_nat (length liveb) - Z.of_nat (length paelpj1)
                      - 0 + 1))
                  0 (Decoder.pnvjy g) [] 0)
        as (pieces & o & Heq & Hpieces & Ho & Hnone & Hclean);
        [done|lia|done|done|lia|left; lia|intros j Hj; lia|done|].
      rewrite app_nil_r in Heq. change (Z.of_nat 0) with 0%Z in Heq.
      exists pieces, o. split_and!; [done..| |done].
      intros j Hoj Hj. apply Hnone. lia.
    - replace (Z.to_nat _) with 0 by lia.
      exists [], 0. rewrite app_nil_r. split_and!; [done|done|lia| |done].
      intros j _ Hj. lia. }
  exists (pieces ++ [Decoder.clothef liveb (Z.of_nat o) None]).
  cbn [fst snd Decoder.pnvjy]. rewrite <- app_assoc.
  split_and!; [done..| |].
  - rewrite join_snoc_pieces, Hpieces, clothef_rest. apply take_drop.
  - apply Forall_app. split; [done|]. apply Forall_singleton.
    rewrite clothef_rest. intros j Hocc. unfold Decoder.occursAt in Hocc.
    rewrite drop_drop in Hocc. apply (Hnone (o + j)); [lia| |done].
    apply (f_equal length) in Hocc.
    rewrite length_take, length_drop in Hocc. lia.
Qed.

End DecoderProofs.

(** [quotient6] takes the string apart by position: the result is the
    characters at the even positions in reverse order, followed by the
    characters at the odd positions in order.  Only the first 33414
    characters count; of a string that is not longer no character is lost
    and none is added. *)
Theorem quotient6_rearranges {A} (sibai : list A) :
  Decoder.quotient6 Decoder.toplevel sibai
  = reverse (Decoder.evens (take (Z.to_nat 33414) sibai))
    ++ Decoder.odds (take (Z.to_nat 33414) sibai)
  ∧ Decoder.quotient6 Decoder.toplevel sibai
    ≡ₚ take (Z.to_nat 33414) sibai.
Proof.
  rewrite quotient6_toplevel. split; [done|].
  rewrite reverse_Permutation. apply alternate_Permutation.
Qed.

Lemma zcwqc_rejoins_witness :
  (Decoder.zcwqc Decoder.toplevel
     (list_ascii_of_string "oneSdwstwoSdws")
     (list_ascii_of_string "Sdws")).1
  = [list_ascii_of_string "one"; list_ascii_of_string "two"; []]
  ∧ ∃ pieces,
      (Decoder.zcwqc Decoder.toplevel
         (list_ascii_of_string "oneSdwstwoSdws")
         (list_ascii_of_string "Sdws")).1
      = [] ++ pieces
      ∧ Decoder.pnvjy
          (Decoder.zcwqc Decoder.toplevel
             (list_ascii_of_string "oneSdwstwoSdws")
             (list_ascii_of_string "Sdws")).2
        = [] ++ pieces
      ∧ Decoder.join (list_ascii_of_string "Sdws") pieces
        = list_ascii_of_string "oneSdwstwoSdws"
      ∧ Forall (fun piece =>
                  ∀ j, ¬ Decoder.occursAt (list_ascii_of_string "Sdws")
                           piece j) pieces.
Proof.
  split; [reflexivity|].
  apply (zcwqc_rejoins Decoder.toplevel
           (list_ascii_of_string "oneSdwstwoSdws")
           (list_ascii_of_string "Sdws")); [|reflexivity..].
  split; [discriminate|].
  intros [|[|[|[|n]]]] Hn; simpl in Hn; try lia; discriminate.
Defined.
